(** * log.Options: defaults, validation, flag binding and JSON rendering

    A shallow embedding of [options.go] (package [log]) together with the
    parts of the Go standard library, of [go.uber.org/zap/zapcore] and of
    [github.com/spf13/pflag] that its four functions call.

    Go strings are byte sequences, so they are Rocq [string]s (lists of
    8-bit characters).  Runes and Go integers are [Z].  What the
    source does not pin of the libraries it imports is kept open (class
    [Libraries]): the two Unicode tables consulted for code points above
    Latin-1 / ASCII, and two points on which the releases of zap and of
    encoding/json differ. *)

From Stdlib Require Import ZArith Ascii String List Lia Bool.
From Stdlib Require Import Numbers.DecimalString Numbers.DecimalZ.
From stdpp Require Import base option gmap strings list.

Local Open Scope Z_scope.

#[local] Arguments String.append !s1 s2 : simpl nomatch.

(** ** Bytes *)

Definition byte_val (c : ascii) : Z := Z.of_N (N_of_ascii c).
Definition byte_of (z : Z) : ascii := ascii_of_N (Z.to_N (z mod 256)).

(** [string(b)] for one byte. *)
Definition str1 (c : ascii) : string := String c EmptyString.

(** [s[n:]] for [n <= len(s)]. *)
Fixpoint drop_bytes (n : nat) (s : string) : string :=
  match n, s with
  | O, _ => s
  | S n', String _ t => drop_bytes n' t
  | S _, EmptyString => EmptyString
  end.

(** [s[:n]] for [n <= len(s)]. *)
Fixpoint take_bytes (n : nat) (s : string) : string :=
  match n, s with
  | O, _ => EmptyString
  | S n', String c t => String c (take_bytes n' t)
  | S _, EmptyString => EmptyString
  end.

Fixpoint concat_strings (l : list string) : string :=
  match l with
  | [] => EmptyString
  | x :: r => x +:+ concat_strings r
  end.

Fixpoint all_bytes (p : ascii → bool) (s : string) : bool :=
  match s with
  | EmptyString => true
  | String c t => p c && all_bytes p t
  end.

Fixpoint any_bytes (p : ascii → bool) (s : string) : bool :=
  match s with
  | EmptyString => false
  | String c t => p c || any_bytes p t
  end.

(** Bytes below [utf8.RuneSelf], and the letters A to Z. *)
Definition ascii_byte (c : ascii) : bool := byte_val c <? 0x80.
Definition upper_byte (c : ascii) : bool := (65 <=? byte_val c) && (byte_val c <=? 90).

Fixpoint map_bytes (f : ascii → ascii) (s : string) : string :=
  match s with
  | EmptyString => EmptyString
  | String c t => String (f c) (map_bytes f t)
  end.

(** [strings.HasPrefix]. *)
Fixpoint HasPrefix (s p : string) : bool :=
  match p, s with
  | EmptyString, _ => true
  | String a p', String b s' => Ascii.eqb a b && HasPrefix s' p'
  | String _ _, EmptyString => false
  end.

(** [strings.Contains]. *)
Fixpoint Contains (s sub : string) : bool :=
  HasPrefix s sub ||
  match s with
  | EmptyString => false
  | String _ t => Contains t sub
  end.

(** The double-quote byte. *)
Definition dquote : ascii := "034"%char.
Definition backslash : ascii := "092"%char.

(** ** unicode/utf8 *)

Module utf8.

Definition RuneError : Z := 0xFFFD.
Definition RuneSelf : Z := 0x80.
Definition MaxRune : Z := 0x10FFFF.
Definition UTFMax : nat := 4.
Definition surrogateMin : Z := 0xD800.
Definition surrogateMax : Z := 0xDFFF.

Definition t2 : Z := 0xC0.
Definition t3 : Z := 0xE0.
Definition t4 : Z := 0xF0.
Definition tx : Z := 0x80.
Definition maskx : Z := 0x3F.
Definition mask2 : Z := 0x1F.
Definition mask3 : Z := 0x0F.
Definition mask4 : Z := 0x07.
Definition rune1Max : Z := 0x7F.
Definition rune2Max : Z := 0x7FF.
Definition rune3Max : Z := 0xFFFF.

Definition locb : Z := 0x80.
Definition hicb : Z := 0xBF.

(** Entries of the [first] table. *)
Definition xx : Z := 0xF1.
Definition as_ : Z := 0xF0.
Definition s1 : Z := 0x02.
Definition s2 : Z := 0x13.
Definition s3 : Z := 0x03.
Definition s4 : Z := 0x23.
Definition s5 : Z := 0x34.
Definition s6 : Z := 0x04.
Definition s7 : Z := 0x44.

(** The 256-entry table [first], row by row. *)
Definition first (b : Z) : Z :=
  if b <? 0x80 then as_
  else if b <? 0xC2 then xx
  else if b <? 0xE0 then s1
  else if b =? 0xE0 then s2
  else if b <? 0xED then s3
  else if b =? 0xED then s4
  else if b <? 0xF0 then s3
  else if b =? 0xF0 then s5
  else if b <? 0xF4 then s6
  else if b =? 0xF4 then s7
  else xx.

(** [acceptRanges]: a 16-entry array of which five are set. *)
Definition acceptRanges (i : Z) : Z * Z :=
  if i =? 0 then (locb, hicb)
  else if i =? 1 then (0xA0, hicb)
  else if i =? 2 then (locb, 0x9F)
  else if i =? 3 then (0x90, hicb)
  else if i =? 4 then (locb, 0x8F)
  else (0, 0).

(** [utf8.DecodeRuneInString] (and [utf8.DecodeRune], the same code on a
    byte slice): the rune at the front of [s] and its width in bytes. *)
Definition DecodeRuneInString (s : string) : Z * nat :=
  match s with
  | EmptyString => (RuneError, 0%nat)
  | String c0 r0 =>
    let b0 := byte_val c0 in
    let x := first b0 in
    if as_ <=? x then
      let mask := if Z.odd x then -1 else 0 in
      (Z.lor (Z.land b0 (Z.lnot mask)) (Z.land RuneError mask), 1%nat)
    else
      let sz := Z.land x 7 in
      let accept := acceptRanges (Z.shiftr x 4) in
      if Z.of_nat (String.length s) <? sz then (RuneError, 1%nat)
      else
        match r0 with
        | EmptyString => (RuneError, 1%nat)
        | String c1 r1 =>
          let b1 := byte_val c1 in
          if (b1 <? fst accept) || (snd accept <? b1) then (RuneError, 1%nat)
          else if sz <=? 2 then
            (Z.lor (Z.shiftl (Z.land b0 mask2) 6) (Z.land b1 maskx), 2%nat)
          else
            match r1 with
            | EmptyString => (RuneError, 1%nat)
            | String c2 r2 =>
              let b2 := byte_val c2 in
              if (b2 <? locb) || (hicb <? b2) then (RuneError, 1%nat)
              else if sz <=? 3 then
                (Z.lor (Z.lor (Z.shiftl (Z.land b0 mask3) 12)
                              (Z.shiftl (Z.land b1 maskx) 6))
                       (Z.land b2 maskx), 3%nat)
              else
                match r2 with
                | EmptyString => (RuneError, 1%nat)
                | String c3 _ =>
                  let b3 := byte_val c3 in
                  if (b3 <? locb) || (hicb <? b3) then (RuneError, 1%nat)
                  else
                    (Z.lor (Z.lor (Z.lor (Z.shiftl (Z.land b0 mask4) 18)
                                         (Z.shiftl (Z.land b1 maskx) 12))
                                  (Z.shiftl (Z.land b2 maskx) 6))
                           (Z.land b3 maskx), 4%nat)
                end
            end
        end
  end.

(** [utf8.AppendRune] onto an empty buffer ([utf8.EncodeRune]).  A rune
    is an int32; [uint32(r)] is [r mod 2^32]. *)
Definition EncodeRune (r : Z) : string :=
  let i := r mod 2 ^ 32 in
  if i <=? rune1Max then str1 (byte_of r)
  else if i <=? rune2Max then
    String (byte_of (Z.lor t2 (Z.shiftr r 6)))
      (str1 (byte_of (Z.lor tx (Z.land r maskx))))
  else
    let bad := (MaxRune <? i) || ((surrogateMin <=? i) && (i <=? surrogateMax)) in
    let r := if bad then RuneError else r in
    if bad || (i <=? rune3Max) then
      String (byte_of (Z.lor t3 (Z.shiftr r 12)))
        (String (byte_of (Z.lor tx (Z.land (Z.shiftr r 6) maskx)))
           (str1 (byte_of (Z.lor tx (Z.land r maskx)))))
    else
      String (byte_of (Z.lor t4 (Z.shiftr r 18)))
        (String (byte_of (Z.lor tx (Z.land (Z.shiftr r 12) maskx)))
           (String (byte_of (Z.lor tx (Z.land (Z.shiftr r 6) maskx)))
              (str1 (byte_of (Z.lor tx (Z.land r maskx)))))).

(** [utf8.ValidRune]. *)
Definition ValidRune (r : Z) : bool :=
  ((0 <=? r) && (r <? surrogateMin)) || ((surrogateMax <? r) && (r <=? MaxRune)).

(** [for i, c := range s]: the runes of [s] in order, each with the
    bytes it was decoded from.  An invalid byte yields [RuneError] with
    width one.  Every step consumes at least one byte, so [len(s)] steps
    are enough. *)
Fixpoint range_fuel (fuel : nat) (s : string) : list (Z * string) :=
  match fuel with
  | O => []
  | S fuel' =>
    match s with
    | EmptyString => []
    | String c _ =>
      let '(r, width) :=
        if byte_val c <? RuneSelf then (byte_val c, 1%nat)
        else DecodeRuneInString s in
      (r, take_bytes width s) :: range_fuel fuel' (drop_bytes width s)
    end
  end.

Definition range (s : string) : list (Z * string) :=
  range_fuel (String.length s) s.

End utf8.

(** ** unicode *)

(** What the model leaves open of the libraries.

    Two table lookups of the Go library: [caseLower r] is
    [unicode.To(unicode.LowerCase, r)], the search of
    [unicode.CaseRanges], consulted for [r > unicode.MaxASCII] only;
    [isPrintHigh r] is the table search of [strconv.IsPrint], consulted
    for [r > 0xFF] only.

    Two points that depend on the release built against, which the
    source does not pin: [zapWarning] says whether the switch of
    zapcore's [unmarshalText] has the cases "warning" and "WARNING"
    (zap from v1.27.1 on); [jsonRawReplacement] says whether
    [json.Marshal] writes the character U+FFFD itself for an invalid
    byte (the encoder built on encoding/json/v2) or the six characters
    backslash, u, f, f, f, d (the encoder before it). *)
Class Libraries := {
  caseLower : Z → Z;
  isPrintHigh : Z → bool;
  zapWarning : bool;
  jsonRawReplacement : bool
}.

Module unicode.

Definition MaxASCII : Z := 0x7F.

(** [unicode.ToLower]. *)
Definition ToLower `{Libraries} (r : Z) : Z :=
  if r <=? MaxASCII then
    if (65 <=? r) && (r <=? 90) then r + (97 - 65) else r
  else caseLower r.

End unicode.

(** ** strings and bytes *)

Module strings.

(** The first loop of [strings.ToLower]: [(isASCII, hasUpper)]. *)
Fixpoint scan_ascii (s : string) (hasUpper : bool) : bool * bool :=
  match s with
  | EmptyString => (true, hasUpper)
  | String c t =>
    if utf8.RuneSelf <=? byte_val c then (false, hasUpper)
    else scan_ascii t (hasUpper || ((65 <=? byte_val c) && (byte_val c <=? 90)))
  end.

(** The ASCII loop of [strings.ToLower]: upper-case letters are moved
    down by ['a' - 'A'], every other byte is copied. *)
Definition lower_byte (c : ascii) : ascii :=
  if (65 <=? byte_val c) && (byte_val c <=? 90)
  then byte_of (byte_val c + (97 - 65)) else c.

(** The second loop of [strings.Map]: every rune is mapped and
    re-encoded; a negative result drops the rune. *)
Definition map_rest (mapping : Z → Z) (rs : list (Z * string)) : string :=
  concat_strings
    (List.map (λ cs, let r := mapping (fst cs) in
                     if 0 <=? r then utf8.EncodeRune r else EmptyString) rs).

(** The first loop of [strings.Map]: runes are skipped while the
    mapping leaves them alone ([pre] collects [s[:i]]); at the first
    rune that changes, or the first invalid byte, the result is
    [s[:i]], the mapped rune and the second loop over [s[i+width:]].
    When nothing changes the input is returned. *)
Fixpoint map_scan (mapping : Z → Z) (pre : string) (rs : list (Z * string)) : string :=
  match rs with
  | [] => pre
  | (c, src) :: rest =>
    let r := mapping c in
    if (r =? c) && negb (c =? utf8.RuneError) then map_scan mapping (pre +:+ src) rest
    else if (c =? utf8.RuneError) && negb (String.length src =? 1)%nat && (r =? c)
    then map_scan mapping (pre +:+ src) rest
    else pre +:+ (if 0 <=? r then utf8.EncodeRune r else EmptyString)
             +:+ map_rest mapping rest
  end.

(** [strings.Map]. *)
Definition Map (mapping : Z → Z) (s : string) : string :=
  map_scan mapping EmptyString (utf8.range s).

(** [strings.ToLower]. *)
Definition ToLower `{Libraries} (s : string) : string :=
  let '(isASCII, hasUpper) := scan_ascii s false in
  if isASCII then
    if negb hasUpper then s else map_bytes lower_byte s
  else Map unicode.ToLower s.

End strings.

Module bytes.

(** [bytes.Map]: one loop, every rune mapped and re-encoded. *)
Definition Map (mapping : Z → Z) (s : string) : string :=
  strings.map_rest mapping (utf8.range s).

(** [bytes.ToLower]: the same two-way split as [strings.ToLower]. *)
Definition ToLower `{Libraries} (s : string) : string :=
  let '(isASCII, hasUpper) := strings.scan_ascii s false in
  if isASCII then
    if negb hasUpper then s else map_bytes strings.lower_byte s
  else Map unicode.ToLower s.

End bytes.

(** ** strconv *)

Module strconv.

(** [lowerhex[n]] for [0 <= n < 16]. *)
Definition lowerhex (n : Z) : ascii :=
  if n <? 10 then byte_of (48 + n) else byte_of (87 + n).

(** [strconv.IsPrint]. *)
Definition IsPrint `{Libraries} (r : Z) : bool :=
  if r <=? 0xFF then
    if (0x20 <=? r) && (r <=? 0x7E) then true
    else if (0xA1 <=? r) && (r <=? 0xFF) then negb (r =? 0xAD)
    else false
  else isPrintHigh r.

(** The digits written by [for s := top; s >= 0; s -= 4]. *)
Fixpoint hex_digits (n : nat) (r : Z) : string :=
  match n with
  | O => EmptyString
  | S n' => String (lowerhex (Z.land (Z.shiftr r (4 * Z.of_nat n')) 0xF)) (hex_digits n' r)
  end.

(** [appendEscapedRune] with the double quote as [quote],
    [ASCIIonly = false] and [graphicOnly = false]. *)
Definition appendEscapedRune `{Libraries} (r : Z) : string :=
  if (r =? byte_val dquote) || (r =? byte_val backslash)
  then String backslash (str1 (byte_of r))
  else if IsPrint r then utf8.EncodeRune r
  else if r =? 7 then "\a"
  else if r =? 8 then "\b"
  else if r =? 12 then "\f"
  else if r =? 10 then "\n"
  else if r =? 13 then "\r"
  else if r =? 9 then "\t"
  else if r =? 11 then "\v"
  else if (r <? 32) || (r =? 0x7F) then
    "\x" +:+ String (lowerhex (Z.shiftr (r mod 256) 4))
               (str1 (lowerhex (Z.land (r mod 256) 0xF)))
  else if negb (utf8.ValidRune r) then "\u" +:+ hex_digits 4 0xFFFD
  else if r <? 0x10000 then "\u" +:+ hex_digits 4 r
  else "\U" +:+ hex_digits 8 r.

(** One turn of the loop of [appendQuotedWith]. *)
Definition quote_rune `{Libraries} (cs : Z * string) : string :=
  let '(r, src) := cs in
  if (String.length src =? 1)%nat && (r =? utf8.RuneError) then
    match src with
    | String c _ =>
      "\x" +:+ String (lowerhex (Z.shiftr (byte_val c) 4))
                 (str1 (lowerhex (Z.land (byte_val c) 0xF)))
    | EmptyString => EmptyString
    end
  else appendEscapedRune r.

(** [strconv.Quote]. *)
Definition Quote `{Libraries} (s : string) : string :=
  String dquote (concat_strings (List.map quote_rune (utf8.range s)) +:+ str1 dquote).

(** [strconv.Itoa] / [strconv.FormatInt(i, 10)]. *)
Definition Itoa (i : Z) : string := NilZero.string_of_int (Z.to_int i).

(** [strconv.FormatBool]. *)
Definition FormatBool (b : bool) : string := if b then "true" else "false".

End strconv.

(** ** errors and fmt *)

(** A Go [error] built by [fmt.Errorf] without [%w] or by [errors.New]:
    a value whose only observable is its message. *)
Inductive error : Type := errorString (text : string).

Definition Error (e : error) : string := let 'errorString t := e in t.

Module fmt.

(** [fmt.Errorf(prefix + "%q", arg)] for a string or byte-slice operand:
    [%q] is [strconv.Quote]. *)
Definition Errorf_q `{Libraries} (prefix arg : string) : error :=
  errorString (prefix +:+ strconv.Quote arg).

End fmt.

(** ** go.uber.org/zap/zapcore: [Level] *)

Module zapcore.

(** [type Level int8]. *)
Definition Level : Type := Z.

Definition DebugLevel : Level := -1.
Definition InfoLevel : Level := 0.
Definition WarnLevel : Level := 1.
Definition ErrorLevel : Level := 2.
Definition DPanicLevel : Level := 3.
Definition PanicLevel : Level := 4.
Definition FatalLevel : Level := 5.

(** [Level.String]. *)
Definition String (l : Level) : string :=
  if l =? DebugLevel then "debug"
  else if l =? InfoLevel then "info"
  else if l =? WarnLevel then "warn"
  else if l =? ErrorLevel then "error"
  else if l =? DPanicLevel then "dpanic"
  else if l =? PanicLevel then "panic"
  else if l =? FatalLevel then "fatal"
  else "Level(" +:+ strconv.Itoa l +:+ ")".

(** The cases of the [switch string(text)] of [unmarshalText]: the
    seven level names in lower and in upper case, the empty string with
    the info level and, in the releases that have them, "warning" and
    "WARNING" with the warn level.  The constants of a switch are
    distinct, so their order is of no account; the two later ones stand
    last. *)
Definition levelCases `{Libraries} : list (string * Level) :=
  [ ("debug", DebugLevel); ("DEBUG", DebugLevel);
    ("info", InfoLevel); ("INFO", InfoLevel); ("", InfoLevel);
    ("warn", WarnLevel); ("WARN", WarnLevel);
    ("error", ErrorLevel); ("ERROR", ErrorLevel);
    ("dpanic", DPanicLevel); ("DPANIC", DPanicLevel);
    ("panic", PanicLevel); ("PANIC", PanicLevel);
    ("fatal", FatalLevel); ("FATAL", FatalLevel) ]
  ++ (if zapWarning then [ ("warning", WarnLevel); ("WARNING", WarnLevel) ] else []).

Fixpoint switch_level (cases : list (string * Level)) (text : string) : option Level :=
  match cases with
  | [] => None
  | (k, v) :: rest => if String.eqb text k then Some v else switch_level rest text
  end.

(** [(l *Level).unmarshalText]: the receiver is overwritten on a match
    and kept otherwise; the result pairs the returned bool with the
    receiver afterwards. *)
Definition unmarshalText `{Libraries} (l : Level) (text : string) : bool * Level :=
  match switch_level levelCases text with
  | Some v => (true, v)
  | None => (false, l)
  end.

(** [(l *Level).UnmarshalText] on a non-nil receiver. *)
Definition UnmarshalText `{Libraries} (l : Level) (text : string)
  : option error * Level :=
  let '(ok, l) := unmarshalText l text in
  if ok then (None, l)
  else
    let '(ok, l) := unmarshalText l (bytes.ToLower text) in
    if ok then (None, l)
    else (Some (fmt.Errorf_q "unrecognized level: " text), l).

End zapcore.

(** ** A monad for methods on heap objects

    A method with a pointer receiver reads and writes the object it
    points to; a computation takes the store and either returns a value
    with the store afterwards or panics. *)

Inductive result (S A : Type) : Type :=
| Done (a : A) (s : S)
| Panicked (msg : string).
Arguments Done {S A} a s.
Arguments Panicked {S A} msg.

Definition M (S A : Type) : Type := S → result S A.

#[global] Instance M_ret {S} : MRet (M S) := λ A a s, Done a s.
#[global] Instance M_bind {S} : MBind (M S) := λ A B f m s,
  match m s with
  | Done a s' => f a s'
  | Panicked msg => Panicked msg
  end.

Definition gets {S A} (f : S → A) : M S A := λ s, Done (f s) s.
Definition modify {S} (f : S → S) : M S unit := λ s, Done tt (f s).
Definition panic {S A} (msg : string) : M S A := λ _, Panicked msg.

(** ** github.com/spf13/pflag

    A flag set registers flags by name; each flag holds a pointer to the
    variable it sets.  A pointer into the object of type [S] is a pair of
    a load and a store. *)

Record ptr (S T : Type) : Type := {
  load : S → T;
  store : T → S → S
}.
Arguments load {S T} p s.
Arguments store {S T} p v s.

(** A Go slice as far as this package can tell slices apart: [nil], or a
    sequence of elements. *)
Inductive slice (A : Type) : Type :=
| nil_slice
| mk_slice (elems : list A).
Arguments nil_slice {A}.
Arguments mk_slice {A} elems.

Module pflag.
Section WithObject.

Context {S : Type}.

(** The implementations of the [Value] interface used here: each wraps
    the pointer it was made from. *)
Inductive Value : Type :=
| stringValue (p : ptr S string)
| boolValue (p : ptr S bool)
| intValue (p : ptr S Z)
| stringSliceValue (value : ptr S (slice string)) (changed : bool).

(** What a [Value] currently holds.  [Value.String()] is its text:
    the string itself, [strconv.FormatBool], [strconv.Itoa], and the
    bracketed CSV line of a string slice. *)
Inductive held : Type :=
| HString (s : string)
| HBool (b : bool)
| HInt (i : Z)
| HStringSlice (l : slice string).

Definition Value_held (v : Value) (o : S) : held :=
  match v with
  | stringValue p => HString (load p o)
  | boolValue p => HBool (load p o)
  | intValue p => HInt (load p o)
  | stringSliceValue p _ => HStringSlice (load p o)
  end.

(** [type Flag struct], for a flag without shorthand.  [DefValue] is
    kept as the value held at registration; pflag stores its
    [String()] text. *)
Record Flag : Type := {
  Name : string;
  Usage : string;
  Value_ : Value;
  DefValue : held
}.

(** [type FlagSet struct]: its name, the optional name normalization,
    the flags by normalized name and in order of definition. *)
Record FlagSet : Type := {
  name : string;
  normalizeNameFunc : option (string → string);
  formal : gmap string Flag;
  orderedFormal : list Flag
}.

(** [(f *FlagSet).normalizeFlagName]. *)
Definition normalizeFlagName (f : FlagSet) (n : string) : string :=
  match normalizeNameFunc f with
  | Some norm => norm n
  | None => n
  end.

(** The store of a registration: the object the pointers lead into and
    the flag set. *)
Definition St : Type := S * FlagSet.

(** [(f *FlagSet).AddFlag] for a flag whose shorthand is empty: a name
    already defined panics. *)
Definition AddFlag (flag : Flag) : M St unit :=
  f ← gets snd;
  let normalizedFlagName := normalizeFlagName f (Name flag) in
  match formal f !! normalizedFlagName with
  | Some _ => panic (name f +:+ " flag redefined: " +:+ Name flag)
  | None =>
    let flag := {| Name := normalizedFlagName; Usage := Usage flag;
                   Value_ := Value_ flag; DefValue := DefValue flag |} in
    modify (λ st : St,
      (fst st, {| name := name (snd st);
                  normalizeNameFunc := normalizeNameFunc (snd st);
                  formal := <[normalizedFlagName := flag]> (formal (snd st));
                  orderedFormal := orderedFormal (snd st) ++ [flag] |}))
  end.

(** [(f *FlagSet).VarP(value, name, "", usage)]: [DefValue] is read off
    the value at this point. *)
Definition VarP (value : Value) (n usage : string) : M St unit :=
  def ← gets (λ st : St, Value_held value (fst st));
  AddFlag {| Name := n; Usage := usage; Value_ := value; DefValue := def |}.

(** [newStringValue] and its siblings: [*p = val], then the pointer
    wrapped as a [Value]. *)
Definition newStringValue (val : string) (p : ptr S string) : M St Value :=
  modify (λ st : St, (store p val (fst st), snd st));; mret (stringValue p).
Definition newBoolValue (val : bool) (p : ptr S bool) : M St Value :=
  modify (λ st : St, (store p val (fst st), snd st));; mret (boolValue p).
Definition newIntValue (val : Z) (p : ptr S Z) : M St Value :=
  modify (λ st : St, (store p val (fst st), snd st));; mret (intValue p).
Definition newStringSliceValue (val : slice string) (p : ptr S (slice string)) : M St Value :=
  modify (λ st : St, (store p val (fst st), snd st));; mret (stringSliceValue p false).

(** [(f *FlagSet).StringVar], [BoolVar], [IntVar], [StringSliceVar]. *)
Definition StringVar (p : ptr S string) (n : string) (value : string) (usage : string) : M St unit :=
  v ← newStringValue value p; VarP v n usage.
Definition BoolVar (p : ptr S bool) (n : string) (value : bool) (usage : string) : M St unit :=
  v ← newBoolValue value p; VarP v n usage.
Definition IntVar (p : ptr S Z) (n : string) (value : Z) (usage : string) : M St unit :=
  v ← newIntValue value p; VarP v n usage.
Definition StringSliceVar (p : ptr S (slice string)) (n : string) (value : slice string)
    (usage : string) : M St unit :=
  v ← newStringSliceValue value p; VarP v n usage.

End WithObject.
Arguments Value : clear implicits.
Arguments held : clear implicits.
Arguments Flag : clear implicits.
Arguments FlagSet : clear implicits.
Arguments St : clear implicits.
End pflag.

(** ** encoding/json *)

Module json.

(** What reflection shows of a struct field of the kinds used here. *)
Inductive value : Type :=
| VString (s : string)
| VBool (b : bool)
| VInt (i : Z)
| VStrings (l : slice string).

(** [htmlSafeSet[b]] for a byte below [utf8.RuneSelf]. *)
Definition htmlSafeSet (b : Z) : bool :=
  (0x20 <=? b) && (b <? 0x80)
  && negb (b =? 34) && negb (b =? 92)
  && negb (b =? 60) && negb (b =? 62) && negb (b =? 38).

(** The escape written for a byte outside [htmlSafeSet] (the short
    forms of backspace and form feed are those of Go 1.22 and later). *)
Definition escape_byte (b : Z) : string :=
  if (b =? 92) || (b =? 34) then String backslash (str1 (byte_of b))
  else if b =? 8 then "\b"
  else if b =? 12 then "\f"
  else if b =? 10 then "\n"
  else if b =? 13 then "\r"
  else if b =? 9 then "\t"
  else "\u00" +:+ String (strconv.lowerhex (Z.shiftr b 4))
                    (str1 (strconv.lowerhex (Z.land b 0xF))).

(** One turn of the loop of [appendString] with [escapeHTML = true]. *)
Definition encode_rune `{Libraries} (cs : Z * string) : string :=
  let '(c, src) := cs in
  if c <? utf8.RuneSelf then
    if htmlSafeSet c then src else escape_byte c
  else if (c =? utf8.RuneError) && (String.length src =? 1)%nat then
    if jsonRawReplacement then utf8.EncodeRune utf8.RuneError else "\u" +:+ "fffd"
  else if (c =? 0x2028) || (c =? 0x2029) then
    "\u202" +:+ str1 (strconv.lowerhex (Z.land c 0xF))
  else src.

(** [appendString]. *)
Definition appendString `{Libraries} (s : string) : string :=
  String dquote (concat_strings (List.map encode_rune (utf8.range s)) +:+ str1 dquote).

(** The loop of [arrayEncoder.encode] from index [i] on. *)
Fixpoint encode_elems `{Libraries} (i : nat) (l : list string) : string :=
  match l with
  | [] => EmptyString
  | x :: r =>
    (if (0 <? i)%nat then "," else "") +:+ appendString x +:+ encode_elems (Datatypes.S i) r
  end.

Definition encode_value `{Libraries} (v : value) : string :=
  match v with
  | VString s => appendString s
  | VBool b => strconv.FormatBool b
  | VInt i => strconv.Itoa i
  | VStrings nil_slice => "null"
  | VStrings (mk_slice l) => "[" +:+ encode_elems 0 l +:+ "]"
  end.

(** The loop of [structEncoder.encode]: [next] is the byte written
    before the coming field. *)
Fixpoint encode_fields `{Libraries} (next : string) (fields : list (string * value))
  : string * string :=
  match fields with
  | [] => (EmptyString, next)
  | (key, v) :: rest =>
    let '(out, next') := encode_fields "," rest in
    (next +:+ String dquote key +:+ String dquote ":" +:+ encode_value v +:+ out, next')
  end.

(** [json.Marshal] of a non-nil pointer to a struct whose fields, with
    the names of their [json] tags, are [fields]. *)
Definition Marshal `{Libraries} (fields : list (string * value)) : string * option error :=
  let '(out, next) := encode_fields "{" fields in
  (if String.eqb next "{" then "{}" else out +:+ "}", None).

End json.

(** ** package log *)

Module log.

Definition flagLevel : string := "log.level".
Definition flagFormat : string := "log.format".
Definition flagEnableColor : string := "log.enable-color".
Definition flagEnableCaller : string := "log.enable-caller".
Definition flagOutputPaths : string := "log.output-paths".
Definition flagErrorOutputPaths : string := "log.error-output-paths".
Definition flagDevelopment : string := "log.development".
Definition flagName : string := "log.name".
Definition flagDisableStacktrace : string := "log.disable-stacktrace".
Definition flagMaxSizeInMB : string := "log.max-size-mb".
Definition flagMaxAgeInDays : string := "log.max-age-days".

Definition consoleFormat : string := "console".
Definition jsonFormat : string := "json".

(** [type Options struct]. *)
Record Options : Type := {
  Level : string;
  Format : string;
  EnableColor : bool;
  EnableCaller : bool;
  OutputPaths : slice string;
  ErrorOutputPaths : slice string;
  DisableStacktrace : bool;
  Development : bool;
  Name : string;
  MaxSizeInMB : Z;
  MaxAgeInDays : Z
}.

(** [NewOptions]: the fields the literal leaves out take their zero
    values. *)
Definition NewOptions : Options := {|
  Level := zapcore.String zapcore.InfoLevel;
  Format := consoleFormat;
  EnableColor := false;
  EnableCaller := false;
  OutputPaths := mk_slice ["stdout"];
  ErrorOutputPaths := mk_slice ["stderr"];
  DisableStacktrace := false;
  Development := false;
  Name := "";
  MaxSizeInMB := 0;
  MaxAgeInDays := 0
|}.

(** [append(errs, err)] on the error list. *)
Definition append_err (errs : list error) (e : error) : list error := errs ++ [e].

(** [(o *Options).Validate]. *)
Definition Validate `{Libraries} : M Options (list error) :=
  let errs : list error := [] in
  let zapLevel : zapcore.Level := 0 in
  level ← gets Level;
  let '(err, zapLevel) := zapcore.UnmarshalText zapLevel level in
  let errs := match err with
              | Some e => append_err errs e
              | None => errs
              end in
  fmt_ ← gets Format;
  let format := strings.ToLower fmt_ in
  o_Format ← gets Format;
  let errs := if negb (String.eqb format consoleFormat) && negb (String.eqb format jsonFormat)
              then append_err errs (fmt.Errorf_q "not a valid log format: " o_Format)
              else errs in
  mret errs.


(** [&o.Level] and the other field addresses. *)
Definition addr_Level : ptr Options string := {|
  load := Level;
  store := λ v o, {| Level := v; Format := Format o; EnableColor := EnableColor o;
    EnableCaller := EnableCaller o; OutputPaths := OutputPaths o;
    ErrorOutputPaths := ErrorOutputPaths o; DisableStacktrace := DisableStacktrace o;
    Development := Development o; Name := Name o; MaxSizeInMB := MaxSizeInMB o;
    MaxAgeInDays := MaxAgeInDays o |} |}.
Definition addr_Format : ptr Options string := {|
  load := Format;
  store := λ v o, {| Level := Level o; Format := v; EnableColor := EnableColor o;
    EnableCaller := EnableCaller o; OutputPaths := OutputPaths o;
    ErrorOutputPaths := ErrorOutputPaths o; DisableStacktrace := DisableStacktrace o;
    Development := Development o; Name := Name o; MaxSizeInMB := MaxSizeInMB o;
    MaxAgeInDays := MaxAgeInDays o |} |}.
Definition addr_EnableColor : ptr Options bool := {|
  load := EnableColor;
  store := λ v o, {| Level := Level o; Format := Format o; EnableColor := v;
    EnableCaller := EnableCaller o; OutputPaths := OutputPaths o;
    ErrorOutputPaths := ErrorOutputPaths o; DisableStacktrace := DisableStacktrace o;
    Development := Development o; Name := Name o; MaxSizeInMB := MaxSizeInMB o;
    MaxAgeInDays := MaxAgeInDays o |} |}.
Definition addr_EnableCaller : ptr Options bool := {|
  load := EnableCaller;
  store := λ v o, {| Level := Level o; Format := Format o; EnableColor := EnableColor o;
    EnableCaller := v; OutputPaths := OutputPaths o;
    ErrorOutputPaths := ErrorOutputPaths o; DisableStacktrace := DisableStacktrace o;
    Development := Development o; Name := Name o; MaxSizeInMB := MaxSizeInMB o;
    MaxAgeInDays := MaxAgeInDays o |} |}.
Definition addr_OutputPaths : ptr Options (slice string) := {|
  load := OutputPaths;
  store := λ v o, {| Level := Level o; Format := Format o; EnableColor := EnableColor o;
    EnableCaller := EnableCaller o; OutputPaths := v;
    ErrorOutputPaths := ErrorOutputPaths o; DisableStacktrace := DisableStacktrace o;
    Development := Development o; Name := Name o; MaxSizeInMB := MaxSizeInMB o;
    MaxAgeInDays := MaxAgeInDays o |} |}.
Definition addr_ErrorOutputPaths : ptr Options (slice string) := {|
  load := ErrorOutputPaths;
  store := λ v o, {| Level := Level o; Format := Format o; EnableColor := EnableColor o;
    EnableCaller := EnableCaller o; OutputPaths := OutputPaths o;
    ErrorOutputPaths := v; DisableStacktrace := DisableStacktrace o;
    Development := Development o; Name := Name o; MaxSizeInMB := MaxSizeInMB o;
    MaxAgeInDays := MaxAgeInDays o |} |}.
Definition addr_DisableStacktrace : ptr Options bool := {|
  load := DisableStacktrace;
  store := λ v o, {| Level := Level o; Format := Format o; EnableColor := EnableColor o;
    EnableCaller := EnableCaller o; OutputPaths := OutputPaths o;
    ErrorOutputPaths := ErrorOutputPaths o; DisableStacktrace := v;
    Development := Development o; Name := Name o; MaxSizeInMB := MaxSizeInMB o;
    MaxAgeInDays := MaxAgeInDays o |} |}.
Definition addr_Development : ptr Options bool := {|
  load := Development;
  store := λ v o, {| Level := Level o; Format := Format o; EnableColor := EnableColor o;
    EnableCaller := EnableCaller o; OutputPaths := OutputPaths o;
    ErrorOutputPaths := ErrorOutputPaths o; DisableStacktrace := DisableStacktrace o;
    Development := v; Name := Name o; MaxSizeInMB := MaxSizeInMB o;
    MaxAgeInDays := MaxAgeInDays o |} |}.
Definition addr_Name : ptr Options string := {|
  load := Name;
  store := λ v o, {| Level := Level o; Format := Format o; EnableColor := EnableColor o;
    EnableCaller := EnableCaller o; OutputPaths := OutputPaths o;
    ErrorOutputPaths := ErrorOutputPaths o; DisableStacktrace := DisableStacktrace o;
    Development := Development o; Name := v; MaxSizeInMB := MaxSizeInMB o;
    MaxAgeInDays := MaxAgeInDays o |} |}.
Definition addr_MaxSizeInMB : ptr Options Z := {|
  load := MaxSizeInMB;
  store := λ v o, {| Level := Level o; Format := Format o; EnableColor := EnableColor o;
    EnableCaller := EnableCaller o; OutputPaths := OutputPaths o;
    ErrorOutputPaths := ErrorOutputPaths o; DisableStacktrace := DisableStacktrace o;
    Development := Development o; Name := Name o; MaxSizeInMB := v;
    MaxAgeInDays := MaxAgeInDays o |} |}.
Definition addr_MaxAgeInDays : ptr Options Z := {|
  load := MaxAgeInDays;
  store := λ v o, {| Level := Level o; Format := Format o; EnableColor := EnableColor o;
    EnableCaller := EnableCaller o; OutputPaths := OutputPaths o;
    ErrorOutputPaths := ErrorOutputPaths o; DisableStacktrace := DisableStacktrace o;
    Development := Development o; Name := Name o; MaxSizeInMB := MaxSizeInMB o;
    MaxAgeInDays := v |} |}.

(** [o.F] read in the store of a registration. *)
Definition field {T} (f : Options → T) : M (pflag.St Options) T :=
  gets (λ st : pflag.St Options, f (fst st)).

(** [(o *Options).AddFlags]: the arguments of each call are evaluated
    before the call, so the default passed is the field as it is then. *)
Definition AddFlags : M (pflag.St Options) unit :=
  v ← field Level;
  pflag.StringVar addr_Level flagLevel v "Minimum log output `LEVEL`.";;
  v ← field Format;
  pflag.StringVar addr_Format flagFormat v
    "Log output `FORMAT`, support plain or json format.";;
  v ← field EnableColor;
  pflag.BoolVar addr_EnableColor flagEnableColor v
    "Enable output ansi colors in plain format logs.";;
  v ← field EnableCaller;
  pflag.BoolVar addr_EnableCaller flagEnableCaller v
    "Enable output of caller information in the log.";;
  v ← field OutputPaths;
  pflag.StringSliceVar addr_OutputPaths flagOutputPaths v "Output paths of log.";;
  v ← field ErrorOutputPaths;
  pflag.StringSliceVar addr_ErrorOutputPaths flagErrorOutputPaths v
    "Error output paths of log.";;
  v ← field Development;
  pflag.BoolVar addr_Development flagDevelopment v
    ("Development puts the logger in development mode, which changes " +:+
     "the behavior of DPanicLevel and takes stacktraces more liberally.");;
  v ← field Name;
  pflag.StringVar addr_Name flagName v "The name of the logger.";;
  v ← field DisableStacktrace;
  pflag.BoolVar addr_DisableStacktrace flagDisableStacktrace v
    "Disable the log to record a stack trace for all messages at or above panic level.";;
  v ← field MaxSizeInMB;
  pflag.IntVar addr_MaxSizeInMB flagMaxSizeInMB v "The max size in MB.";;
  v ← field MaxAgeInDays;
  pflag.IntVar addr_MaxAgeInDays flagMaxAgeInDays v "The max age in Days.".

(** The fields of [Options] with the names of their [json] tags, in
    the order of the struct. *)
Definition json_fields (o : Options) : list (string * json.value) :=
  [ ("level", json.VString (Level o));
    ("format", json.VString (Format o));
    ("enable-color", json.VBool (EnableColor o));
    ("enable-caller", json.VBool (EnableCaller o));
    ("output-paths", json.VStrings (OutputPaths o));
    ("error-output-paths", json.VStrings (ErrorOutputPaths o));
    ("disable-stacktrace", json.VBool (DisableStacktrace o));
    ("development", json.VBool (Development o));
    ("name", json.VString (Name o));
    ("max-size-in-mb", json.VInt (MaxSizeInMB o));
    ("max-age-in-days", json.VInt (MaxAgeInDays o)) ].

(** [(o *Options).String]: the error of [json.Marshal] is dropped. *)
Definition String `{Libraries} : M Options string :=
  o ← gets id;
  let '(data, _) := json.Marshal (json_fields o) in
  mret data.

End log.

(** ** Vocabulary of the specification *)

(** A string between double quotes. *)
Definition quoted (s : string) : string := String dquote (s +:+ str1 dquote).

(** [sep.join(parts)]. *)
Fixpoint join (sep : string) (parts : list string) : string :=
  match parts with
  | [] => EmptyString
  | [x] => x
  | x :: rest => x +:+ sep +:+ join sep rest
  end.

(** A JSON object and a JSON array, written from the texts of their
    members and elements. *)
Definition json_member (kv : string * string) : string :=
  quoted (fst kv) +:+ ":" +:+ snd kv.
Definition json_object (members : list (string * string)) : string :=
  "{" +:+ join "," (List.map json_member members) +:+ "}".
Definition json_array (elems : list string) : string :=
  "[" +:+ join "," elems +:+ "]".

(** The JSON text of a path list: its elements as JSON strings, in
    their order; [null] for a nil slice. *)
Definition json_paths `{Libraries} (l : slice string) : string :=
  match l with
  | nil_slice => "null"
  | mk_slice elems => json_array (List.map json.appendString elems)
  end.

(** Comparison that ignores the case of the letters A to Z. *)
Definition fold_case (s : string) : string := map_bytes strings.lower_byte s.
Definition equal_fold (s t : string) : bool := String.eqb (fold_case s) (fold_case t).

(** The [Format] constraint of the data model. *)
Definition valid_format (s : string) : bool :=
  equal_fold s "console" || equal_fold s "json".

(** The severity-level tokens. *)
Definition severity_tokens : list string :=
  ["debug"; "info"; "warn"; "error"; "dpanic"; "panic"; "fatal"].

Definition is_severity_token (s : string) : bool :=
  existsb (equal_fold s) severity_tokens.

(** "warning" in any letter case, where the release of zap built
    against takes it for the warn level. *)
Definition warning_alias `{Libraries} (s : string) : bool :=
  zapWarning && equal_fold s "warning".

(** Severity-token parsing as [Validate] runs it: [UnmarshalText] on a
    zero [Level]. *)
Definition parse_level `{Libraries} (s : string) : option error * zapcore.Level :=
  zapcore.UnmarshalText 0 s.

Definition level_parses `{Libraries} (s : string) : bool :=
  match fst (parse_level s) with
  | None => true
  | Some _ => false
  end.

(** The two kinds of error, told apart by their message. *)
Definition is_level_error (e : error) : bool :=
  HasPrefix (Error e) "unrecognized level: ".
Definition is_format_error (e : error) : bool :=
  HasPrefix (Error e) "not a valid log format: ".

(** Bytes that [%q] writes as they are: printable ASCII other than the
    double quote and the backslash. *)
Definition plain_byte (c : ascii) : bool :=
  (0x20 <=? byte_val c) && (byte_val c <=? 0x7E)
  && negb (byte_val c =? 34) && negb (byte_val c =? 92).

Definition plain_text (s : string) : bool := all_bytes plain_byte s.

(** The property of [unicode.CaseRanges] that the format check relies
    on: the lower case of a code point outside ASCII is outside ASCII,
    except for U+0130 and U+212A, whose lower cases are [i] and [k]. *)
Definition lower_stays_outside_ascii (T : Libraries) : Prop :=
  ∀ r, 0x80 <= r <= utf8.MaxRune →
    0x80 <= caseLower r <= utf8.MaxRune
    ∨ (r = 0x130 ∧ caseLower r = 0x69)
    ∨ (r = 0x212A ∧ caseLower r = 0x6B).

(** Tables that leave every code point above Latin-1 alone, apart from
    the two whose lower case is ASCII, and hold every code point above
    Latin-1 printable, with the later releases of zap and of the JSON
    encoder: enough to run the model on concrete inputs. *)
Definition sampleLibraries : Libraries := {|
  caseLower := λ r, if r =? 0x130 then 0x69
                    else if r =? 0x212A then 0x6B
                    else if (0xC0 <=? r) && (r <=? 0xDE) && negb (r =? 0xD7) then r + 32
                    else r;
  isPrintHigh := λ _, true;
  zapWarning := true;
  jsonRawReplacement := true
|}.

(** [o] with [Level] and [Format] replaced. *)
Definition with_Level (l : string) (o : log.Options) : log.Options :=
  store log.addr_Level l o.
Definition with_Format (f : string) (o : log.Options) : log.Options :=
  store log.addr_Format f o.

(** The eleven flag names of the external interface. *)
Definition flag_names : list string :=
  [ "log.level"; "log.format"; "log.enable-color"; "log.enable-caller";
    "log.output-paths"; "log.error-output-paths"; "log.development";
    "log.name"; "log.disable-stacktrace"; "log.max-size-mb"; "log.max-age-days" ].

(** The flag set after one more flag has been added to it. *)
Definition with_flag {S} (f : pflag.FlagSet S) (flag : pflag.Flag S) : pflag.FlagSet S := {|
  pflag.name := pflag.name f;
  pflag.normalizeNameFunc := pflag.normalizeNameFunc f;
  pflag.formal := <[pflag.Name flag := flag]> (pflag.formal f);
  pflag.orderedFormal := pflag.orderedFormal f ++ [flag]
|}.

(** An empty flag set named [name], with no name normalization. *)
Definition NewFlagSet (name : string) : pflag.FlagSet log.Options := {|
  pflag.name := name;
  pflag.normalizeNameFunc := None;
  pflag.formal := ∅;
  pflag.orderedFormal := []
|}.

(** Bytes that the lowering of a string outside ASCII always leaves
    behind, and that the two format names do not have: a byte outside
    ASCII, [i] or [k]. *)
Definition marks (c : ascii) : bool :=
  negb (ascii_byte c) || (byte_val c =? 0x69) || (byte_val c =? 0x6B).

(** ** The calls of [AddFlags], one by one

    Every statement of [AddFlags] has one shape: a field is read, and
    its address is bound under a name with what was read as the
    default.  A [binding] is one such statement. *)

Inductive binding (S : Type) : Type :=
| bind_string (p : ptr S string) (n usage : string)
| bind_bool (p : ptr S bool) (n usage : string)
| bind_int (p : ptr S Z) (n usage : string)
| bind_strings (p : ptr S (slice string)) (n usage : string).
Arguments bind_string {S} p n usage.
Arguments bind_bool {S} p n usage.
Arguments bind_int {S} p n usage.
Arguments bind_strings {S} p n usage.

Definition binding_name {S} (b : binding S) : string :=
  match b with
  | bind_string _ n _ | bind_bool _ n _ | bind_int _ n _ | bind_strings _ n _ => n
  end.

Definition binding_usage {S} (b : binding S) : string :=
  match b with
  | bind_string _ _ u | bind_bool _ _ u | bind_int _ _ u | bind_strings _ _ u => u
  end.

Definition binding_value {S} (b : binding S) : pflag.Value S :=
  match b with
  | bind_string p _ _ => pflag.stringValue p
  | bind_bool p _ _ => pflag.boolValue p
  | bind_int p _ _ => pflag.intValue p
  | bind_strings p _ _ => pflag.stringSliceValue p false
  end.

(** [fs.XxxVar(&o.F, name, o.F, usage)]. *)
Definition run_binding {S} (b : binding S) : M (pflag.St S) unit :=
  match b with
  | bind_string p n u =>
    v ← gets (λ st : pflag.St S, load p (fst st)); pflag.StringVar p n v u
  | bind_bool p n u =>
    v ← gets (λ st : pflag.St S, load p (fst st)); pflag.BoolVar p n v u
  | bind_int p n u =>
    v ← gets (λ st : pflag.St S, load p (fst st)); pflag.IntVar p n v u
  | bind_strings p n u =>
    v ← gets (λ st : pflag.St S, load p (fst st)); pflag.StringSliceVar p n v u
  end.

Fixpoint run_bindings {S} (bs : list (binding S)) : M (pflag.St S) unit :=
  match bs with
  | [] => mret tt
  | b :: rest => run_binding b ;; run_bindings rest
  end.

(** Storing through a pointer what was just loaded from it changes
    nothing: true of the address of a struct field. *)
Definition field_ptr {S T} (p : ptr S T) : Prop :=
  ∀ o, store p (load p o) o = o.

Definition binding_ptr_ok {S} (b : binding S) : Prop :=
  match b with
  | bind_string p _ _ => field_ptr p
  | bind_bool p _ _ => field_ptr p
  | bind_int p _ _ => field_ptr p
  | bind_strings p _ _ => field_ptr p
  end.

(** The flag a binding registers on the object [o], under the
    normalization [norm]. *)
Definition binding_flag {S} (norm : string → string) (o : S) (b : binding S)
  : pflag.Flag S := {|
  pflag.Name := norm (binding_name b);
  pflag.Usage := binding_usage b;
  pflag.Value_ := binding_value b;
  pflag.DefValue := pflag.Value_held (binding_value b) o
|}.

(** The key under which a binding is registered in the flag set [f]. *)
Definition binding_key {S} (f : pflag.FlagSet S) (b : binding S) : string :=
  pflag.normalizeFlagName f (binding_name b).

(** The eleven statements of [AddFlags]. *)
Definition log_bindings : list (binding log.Options) :=
  [ bind_string log.addr_Level log.flagLevel "Minimum log output `LEVEL`.";
    bind_string log.addr_Format log.flagFormat
      "Log output `FORMAT`, support plain or json format.";
    bind_bool log.addr_EnableColor log.flagEnableColor
      "Enable output ansi colors in plain format logs.";
    bind_bool log.addr_EnableCaller log.flagEnableCaller
      "Enable output of caller information in the log.";
    bind_strings log.addr_OutputPaths log.flagOutputPaths "Output paths of log.";
    bind_strings log.addr_ErrorOutputPaths log.flagErrorOutputPaths
      "Error output paths of log.";
    bind_bool log.addr_Development log.flagDevelopment
      ("Development puts the logger in development mode, which changes " +:+
       "the behavior of DPanicLevel and takes stacktraces more liberally.");
    bind_string log.addr_Name log.flagName "The name of the logger.";
    bind_bool log.addr_DisableStacktrace log.flagDisableStacktrace
      "Disable the log to record a stack trace for all messages at or above panic level.";
    bind_int log.addr_MaxSizeInMB log.flagMaxSizeInMB "The max size in MB.";
    bind_int log.addr_MaxAgeInDays log.flagMaxAgeInDays "The max age in Days." ].

(** What "reserved" means for a flag set: the keys of the eleven names
    are distinct and none is defined. *)
Definition names_free (f : pflag.FlagSet log.Options) : Prop :=
  NoDup (List.map (pflag.normalizeFlagName f) flag_names)
  ∧ ∀ n, In n flag_names → pflag.formal f !! pflag.normalizeFlagName f n = None.

(** A name normalization that turns the dot into a dash and leaves
    every other byte. *)
Definition dash_names (n : string) : string :=
  map_bytes (λ c, if Ascii.eqb c "." then "-"%char else c) n.

(** An empty flag set named [name] with the normalization [norm]. *)
Definition NewFlagSet_normalized (name : string) (norm : string → string)
  : pflag.FlagSet log.Options := {|
  pflag.name := name;
  pflag.normalizeNameFunc := Some norm;
  pflag.formal := ∅;
  pflag.orderedFormal := []
|}.

(** ** Bytes of the texts produced *)

(** A byte that is no ASCII control character: printable ASCII, or a
    byte of a multi-byte character. *)
Definition visible_byte (c : ascii) : bool :=
  ((0x20 <=? byte_val c) && (byte_val c <=? 0x7E)) || (0x80 <=? byte_val c).

(** A byte that [json.Marshal] lets through: not below the space, and
    not one of the three characters that matter to HTML. *)
Definition json_clean_byte (c : ascii) : bool :=
  (0x20 <=? byte_val c)
  && negb (byte_val c =? 60) && negb (byte_val c =? 62) && negb (byte_val c =? 38).

(** A byte that [json.Marshal] copies as it is. *)
Definition json_plain_byte (c : ascii) : bool := json.htmlSafeSet (byte_val c).

Definition json_plain (s : string) : bool := all_bytes json_plain_byte s.

Definition json_plain_paths (l : slice string) : bool :=
  match l with
  | nil_slice => true
  | mk_slice elems => forallb json_plain elems
  end.

Definition high_byte (c : ascii) : bool := negb (ascii_byte c).

(** The members of the JSON object of a record: the keys of the [json]
    tags with the texts of the values. *)
Definition options_members `{Libraries} (o : log.Options) : list (string * string) :=
  [ ("level", json.appendString (log.Level o));
    ("format", json.appendString (log.Format o));
    ("enable-color", strconv.FormatBool (log.EnableColor o));
    ("enable-caller", strconv.FormatBool (log.EnableCaller o));
    ("output-paths", json_paths (log.OutputPaths o));
    ("error-output-paths", json_paths (log.ErrorOutputPaths o));
    ("disable-stacktrace", strconv.FormatBool (log.DisableStacktrace o));
    ("development", strconv.FormatBool (log.Development o));
    ("name", json.appendString (log.Name o));
    ("max-size-in-mb", strconv.Itoa (log.MaxSizeInMB o));
    ("max-age-in-days", strconv.Itoa (log.MaxAgeInDays o)) ].

(** A path list written with every element between double quotes. *)
Definition quoted_paths (l : slice string) : string :=
  match l with
  | nil_slice => "null"
  | mk_slice elems => json_array (List.map quoted elems)
  end.

(** ** JSON text as a reader takes it

    A reader for compact JSON texts (RFC 8259) of the shape a record
    can give: one object whose members are strings, booleans, null,
    integers and arrays of strings.  It is written from the grammar,
    not from the encoder, and is what the text of [String] is checked
    against. *)

(** The values a reader can find in the text of a record: null, a
    boolean, an integer, a string, an array of strings. *)
Inductive json_value : Type :=
| JNull
| JBool (b : bool)
| JNumber (n : Z)
| JString (s : string)
| JStrings (l : list string).

(** The value of a hexadecimal digit, and of four of them. *)
Definition hex_digit (c : ascii) : option Z :=
  let b := byte_val c in
  if (48 <=? b) && (b <=? 57) then Some (b - 48)
  else if (97 <=? b) && (b <=? 102) then Some (b - 87)
  else if (65 <=? b) && (b <=? 70) then Some (b - 55)
  else None.

Definition hex4 (a b c d : ascii) : option Z :=
  match hex_digit a, hex_digit b, hex_digit c, hex_digit d with
  | Some x, Some y, Some z, Some w => Some (((x * 16 + y) * 16 + z) * 16 + w)
  | _, _, _, _ => None
  end.

(** The byte that a letter after a backslash stands for (RFC 8259,
    section 7), [u] apart. *)
Definition unescape (e : ascii) : option ascii :=
  let b := byte_val e in
  if (b =? 34) || (b =? 92) || (b =? 47) then Some e
  else if b =? 98 then Some (byte_of 8)
  else if b =? 102 then Some (byte_of 12)
  else if b =? 110 then Some (byte_of 10)
  else if b =? 114 then Some (byte_of 13)
  else if b =? 116 then Some (byte_of 9)
  else None.

(** [out] put in front of what was read. *)
Definition read_more {A} (out : string) (r : option (string * A)) : option (string * A) :=
  match r with
  | Some (v, rest) => Some (out +:+ v, rest)
  | None => None
  end.

(** The characters of a JSON string after its opening quote, up to
    the closing quote: a control character is refused, a backslash
    starts an escape, [\u] with four hexadecimal digits stands for the
    UTF-8 encoding of that code point (surrogates are refused), every
    other byte stands for itself.  The result is the string read and
    the text after the closing quote. *)
Fixpoint read_chars (s : string) : option (string * string) :=
  match s with
  | EmptyString => None
  | String c t =>
    if byte_val c =? 34 then Some (EmptyString, t)
    else if byte_val c <? 0x20 then None
    else if byte_val c =? 92 then
      match t with
      | EmptyString => None
      | String e t1 =>
        if byte_val e =? 117 then
          match t1 with
          | String h1 (String h2 (String h3 (String h4 t2))) =>
            match hex4 h1 h2 h3 h4 with
            | Some n =>
              if (utf8.surrogateMin <=? n) && (n <=? utf8.surrogateMax) then None
              else read_more (utf8.EncodeRune n) (read_chars t2)
            | None => None
            end
          | _ => None
          end
        else
          match unescape e with
          | Some b => read_more (str1 b) (read_chars t1)
          | None => None
          end
      end
    else read_more (str1 c) (read_chars t)
  end.

(** A JSON string. *)
Definition read_string (s : string) : option (string * string) :=
  match s with
  | String c t => if byte_val c =? 34 then read_chars t else None
  | EmptyString => None
  end.

(** The bytes of an integer: the minus sign and the digits. *)
Definition number_byte (c : ascii) : bool :=
  (byte_val c =? 45) || ((48 <=? byte_val c) && (byte_val c <=? 57)).

(** The longest prefix of bytes that satisfy [p], and the rest. *)
Fixpoint span (p : ascii → bool) (s : string) : string * string :=
  match s with
  | EmptyString => (EmptyString, EmptyString)
  | String c t =>
    if p c then let '(tok, rest) := span p t in (String c tok, rest)
    else (EmptyString, s)
  end.

(** A JSON number without fraction or exponent: an optional minus
    sign and decimal digits, without leading zeros (the normal form of
    the Standard Library's decimal numbers); its value is read by the
    Standard Library. *)
Definition read_number (s : string) : option (Z * string) :=
  let '(tok, rest) := span number_byte s in
  match NilZero.int_of_string tok with
  | Some d =>
    if String.eqb (NilZero.string_of_int (Decimal.norm d)) tok
    then Some (Z.of_int d, rest) else None
  | None => None
  end.

(** [s] without its prefix [lit], when it has it. *)
Fixpoint after (lit s : string) : option string :=
  match lit, s with
  | EmptyString, _ => Some s
  | String a lit', String b s' => if Ascii.eqb a b then after lit' s' else None
  | String _ _, EmptyString => None
  end.

(** The strings of a non-empty array after its opening bracket,
    separated by commas, up to the closing bracket.  Every turn takes
    at least one byte, so the length of the text is fuel enough. *)
Fixpoint read_elems (fuel : nat) (s : string) : option (list string * string) :=
  match fuel with
  | O => None
  | Datatypes.S fuel' =>
    match read_string s with
    | Some (x, String c t) =>
      if byte_val c =? 44 then
        match read_elems fuel' t with
        | Some (l, rest) => Some (x :: l, rest)
        | None => None
        end
      else if byte_val c =? 93 then Some ([x], t)
      else None
    | _ => None
    end
  end.

(** A value: a string, an array of strings, [true], [false],
    [null] or an integer. *)
Definition read_value (s : string) : option (json_value * string) :=
  match s with
  | EmptyString => None
  | String c t =>
    if byte_val c =? 34 then
      match read_chars t with
      | Some (v, rest) => Some (JString v, rest)
      | None => None
      end
    else if byte_val c =? 91 then
      match after "]" t with
      | Some rest => Some (JStrings [], rest)
      | None =>
        match read_elems (String.length t) t with
        | Some (l, rest) => Some (JStrings l, rest)
        | None => None
        end
      end
    else if byte_val c =? 116 then
      match after "rue" t with Some rest => Some (JBool true, rest) | None => None end
    else if byte_val c =? 102 then
      match after "alse" t with Some rest => Some (JBool false, rest) | None => None end
    else if byte_val c =? 110 then
      match after "ull" t with Some rest => Some (JNull, rest) | None => None end
    else
      match read_number s with
      | Some (n, rest) => Some (JNumber n, rest)
      | None => None
      end
  end.

(** The members of a non-empty object after its opening brace: a
    string, a colon and a value each, separated by commas, up to the
    closing brace. *)
Fixpoint read_members (fuel : nat) (s : string)
  : option (list (string * json_value) * string) :=
  match fuel with
  | O => None
  | Datatypes.S fuel' =>
    match read_string s with
    | Some (key, String c t) =>
      if byte_val c =? 58 then
        match read_value t with
        | Some (v, String c' t') =>
          if byte_val c' =? 44 then
            match read_members fuel' t' with
            | Some (ms, rest) => Some ((key, v) :: ms, rest)
            | None => None
            end
          else if byte_val c' =? 125 then Some ([(key, v)], t')
          else None
        | _ => None
        end
      else None
    | _ => None
    end
  end.

(** A text that is one JSON object and nothing more: its members in
    the order of the text.  No white space is allowed for, so the
    texts read are compact JSON texts. *)
Definition read_object (s : string) : option (list (string * json_value)) :=
  match s with
  | String c t =>
    if byte_val c =? 123 then
      match after "}" t with
      | Some EmptyString => Some []
      | Some _ => None
      | None =>
        match read_members (String.length t) t with
        | Some (ms, EmptyString) => Some ms
        | _ => None
        end
      end
    else None
  | EmptyString => None
  end.

(** [s] with every byte that is no part of a valid UTF-8 encoding
    replaced by the encoding of U+FFFD: what a JSON text can keep of a
    Go string. *)
Definition replace_invalid_rune (cs : Z * string) : string :=
  let '(r, src) := cs in
  if (r =? utf8.RuneError) && (String.length src =? 1)%nat
  then utf8.EncodeRune utf8.RuneError else src.

Definition replace_invalid (s : string) : string :=
  concat_strings (List.map replace_invalid_rune (utf8.range s)).

(** [utf8.ValidString]: no byte of [s] decodes to the error rune
    with width one. *)
Definition valid_utf8 (s : string) : bool :=
  forallb (λ cs, negb ((fst cs =? utf8.RuneError) && (String.length (snd cs) =? 1)%nat))
          (utf8.range s).


(** What a path list is read back as: null for a nil slice, else the
    array of its elements in their order. *)
Definition paths_value (l : slice string) : json_value :=
  match l with
  | nil_slice => JNull
  | mk_slice elems => JStrings (List.map replace_invalid elems)
  end.

(** What a field value is read back as. *)
Definition json_read_of (v : json.value) : json_value :=
  match v with
  | json.VString s => JString (replace_invalid s)
  | json.VBool b => JBool b
  | json.VInt i => JNumber i
  | json.VStrings l => paths_value l
  end.

(** What may follow a value inside an object: a comma or the closing
    brace. *)
Definition member_end (s : string) : bool :=
  match s with
  | String c _ => (byte_val c =? 44) || (byte_val c =? 125)
  | EmptyString => false
  end.

(** A record whose strings need every kind of care: a double quote,
    the characters that matter to HTML, two bytes that encode one
    character, a byte that is no valid encoding, a line feed. *)
Definition sample_record : log.Options :=
  {| log.Level := String "a" (String dquote "b"); log.Format := "<json>";
     log.EnableColor := true; log.EnableCaller := false;
     log.OutputPaths := mk_slice ["stdout"; String (byte_of 0xC3) (String (byte_of 0xA9) "")];
     log.ErrorOutputPaths := nil_slice;
     log.DisableStacktrace := false; log.Development := true;
     log.Name := String (byte_of 0xFF) (String (byte_of 10) "x");
     log.MaxSizeInMB := 100; log.MaxAgeInDays := -1 |}.

(** ** Proof tactics *)

Ltac zbool :=
  repeat rewrite ?andb_true_iff, ?orb_true_iff, ?negb_true_iff, ?negb_false_iff,
    ?andb_false_iff, ?orb_false_iff,
    ?Z.leb_le, ?Z.ltb_lt, ?Z.eqb_eq, ?Z.eqb_neq, ?Z.leb_gt, ?Z.ltb_ge in *.

Ltac eval_closed t :=
  let v := eval vm_compute in t in change t with v.

Ltac case_Zcmp :=
  match goal with
  | |- context [?a <? ?c] => destruct (Z.ltb_spec a c)
  | |- context [?a <=? ?c] => destruct (Z.leb_spec a c)
  | |- context [?a =? ?c] => destruct (Z.eqb_spec a c)
  end.

(** * Properties *)

(** ** The defaults *)

(** C5: [NewOptions] returns Level "info", Format "console",
    OutputPaths ["stdout"], ErrorOutputPaths ["stderr"], the four
    booleans false, Name empty and both rotation thresholds zero. *)
Theorem NewOptions_defaults :
  log.Level log.NewOptions = "info"
  ∧ log.Format log.NewOptions = "console"
  ∧ log.OutputPaths log.NewOptions = mk_slice ["stdout"]
  ∧ log.ErrorOutputPaths log.NewOptions = mk_slice ["stderr"]
  ∧ log.EnableColor log.NewOptions = false
  ∧ log.EnableCaller log.NewOptions = false
  ∧ log.DisableStacktrace log.NewOptions = false
  ∧ log.Development log.NewOptions = false
  ∧ log.Name log.NewOptions = ""
  ∧ log.MaxSizeInMB log.NewOptions = 0
  ∧ log.MaxAgeInDays log.NewOptions = 0.
Proof. repeat split; reflexivity. Qed.

(** C1: [Validate] on the record [NewOptions] returns, unchanged,
    gives the empty error sequence. *)
Theorem Validate_NewOptions `{Libraries} :
  log.Validate log.NewOptions = Done [] log.NewOptions.
Proof. reflexivity. Qed.

(** ** How [Validate] runs *)

(** The errors of the two checks, as [Validate] computes them. *)
Lemma Validate_run `{Libraries} (o : log.Options) :
  log.Validate o =
  Done ((match fst (parse_level (log.Level o)) with
         | Some e => [e]
         | None => []
         end) ++
        (if negb (String.eqb (strings.ToLower (log.Format o)) "console")
            && negb (String.eqb (strings.ToLower (log.Format o)) "json")
         then [fmt.Errorf_q "not a valid log format: " (log.Format o)]
         else [])) o.
Proof.
  unfold log.Validate, parse_level, mbind, M_bind, gets, mret, M_ret, log.append_err.
  destruct (zapcore.UnmarshalText 0 (log.Level o)) as [[e|] l]; simpl;
    destruct (negb _ && negb _); reflexivity.
Qed.

(** A failed parse reports the text it was given, quoted. *)
Lemma parse_level_error `{Libraries} (s : string) (e : error) :
  fst (parse_level s) = Some e →
  e = fmt.Errorf_q "unrecognized level: " s.
Proof.
  unfold parse_level, zapcore.UnmarshalText.
  destruct (zapcore.unmarshalText 0 s) as [ok l].
  destruct ok; simpl; [discriminate|].
  destruct (zapcore.unmarshalText l (bytes.ToLower s)) as [ok' l'].
  destruct ok'; simpl; [discriminate|].
  intros [= <-]. reflexivity.
Qed.

Lemma level_parses_spec `{Libraries} (s : string) :
  level_parses s = false ↔ ∃ e, fst (parse_level s) = Some e.
Proof.
  unfold level_parses. destruct (fst (parse_level s)) as [e|]; split.
  - eauto.
  - reflexivity.
  - discriminate.
  - intros [e He]. discriminate.
Qed.

(** ** Bytes and ASCII strings *)

Lemma byte_val_range (c : ascii) : 0 <= byte_val c < 256.
Proof.
  unfold byte_val. pose proof (N_ascii_bounded c). lia.
Qed.

Lemma byte_of_val (c : ascii) : byte_of (byte_val c) = c.
Proof.
  unfold byte_of. rewrite Z.mod_small by apply byte_val_range.
  unfold byte_val. rewrite N2Z.id. apply ascii_N_embedding.
Qed.

Lemma byte_val_of (z : Z) : byte_val (byte_of z) = z mod 256.
Proof.
  unfold byte_val, byte_of.
  assert (0 <= z mod 256 < 256) by (apply Z.mod_pos_bound; lia).
  rewrite N_ascii_embedding by lia. lia.
Qed.

Lemma any_bytes_app p (s t : string) :
  any_bytes p (s +:+ t) = any_bytes p s || any_bytes p t.
Proof.
  induction s as [|c s IH]; simpl; [reflexivity|].
  rewrite IH. apply orb_assoc.
Qed.

Lemma app_empty_r (s : string) : s +:+ "" = s.
Proof. induction s as [|c s IH]; simpl; [|rewrite IH]; reflexivity. Qed.

Lemma app_assoc_str (s t u : string) : (s +:+ t) +:+ u = s +:+ t +:+ u.
Proof. induction s as [|c s IH]; simpl; [|rewrite IH]; reflexivity. Qed.

Lemma scan_ascii_fst (s : string) (h : bool) :
  fst (strings.scan_ascii s h) = all_bytes ascii_byte s.
Proof.
  revert h. induction s as [|c s IH]; intros h; simpl; [reflexivity|].
  unfold ascii_byte at 1, utf8.RuneSelf.
  destruct (Z.leb_spec 128 (byte_val c)), (Z.ltb_spec (byte_val c) 128);
    try lia; simpl; auto.
Qed.

Lemma scan_ascii_snd (s : string) (h : bool) :
  all_bytes ascii_byte s = true →
  snd (strings.scan_ascii s h) = h || any_bytes upper_byte s.
Proof.
  revert h. induction s as [|c s IH]; intros h; simpl.
  - now rewrite orb_false_r.
  - unfold ascii_byte at 1, utf8.RuneSelf. intros Hs.
    apply andb_true_iff in Hs as [Hc Hs]. apply Z.ltb_lt in Hc.
    destruct (Z.leb_spec 128 (byte_val c)); [lia|].
    rewrite IH by assumption. unfold upper_byte. now rewrite orb_assoc.
Qed.

Lemma map_lower_no_upper (s : string) :
  any_bytes upper_byte s = false → map_bytes strings.lower_byte s = s.
Proof.
  induction s as [|c s IH]; simpl; [reflexivity|].
  intros Hs. apply orb_false_iff in Hs as [Hc Hs].
  rewrite IH by assumption. unfold strings.lower_byte.
  unfold upper_byte in Hc. now rewrite Hc.
Qed.

(** On a string of ASCII bytes, both [ToLower]s are the byte-wise
    lowering of the letters A to Z. *)
Lemma strings_ToLower_ascii `{Libraries} (s : string) :
  all_bytes ascii_byte s = true → strings.ToLower s = fold_case s.
Proof.
  intros Hs. unfold strings.ToLower.
  pose proof (scan_ascii_fst s false) as H1.
  pose proof (scan_ascii_snd s false Hs) as H2.
  destruct (strings.scan_ascii s false) as [isASCII hasUpper]; simpl in *.
  subst. rewrite Hs.
  destruct (any_bytes upper_byte s) eqn:Hu; simpl; [reflexivity|].
  unfold fold_case. now rewrite map_lower_no_upper.
Qed.

Lemma bytes_ToLower_ascii `{Libraries} (s : string) :
  all_bytes ascii_byte s = true → bytes.ToLower s = fold_case s.
Proof.
  intros Hs. unfold bytes.ToLower.
  pose proof (scan_ascii_fst s false) as H1.
  pose proof (scan_ascii_snd s false Hs) as H2.
  destruct (strings.scan_ascii s false) as [isASCII hasUpper]; simpl in *.
  subst. rewrite Hs.
  destruct (any_bytes upper_byte s) eqn:Hu; simpl; [reflexivity|].
  unfold fold_case. now rewrite map_lower_no_upper.
Qed.

Lemma strings_ToLower_nonascii `{Libraries} (s : string) :
  all_bytes ascii_byte s = false →
  strings.ToLower s = strings.Map unicode.ToLower s.
Proof.
  intros Hs. unfold strings.ToLower.
  pose proof (scan_ascii_fst s false) as H1.
  destruct (strings.scan_ascii s false) as [isASCII hasUpper]; simpl in *.
  subst. now rewrite Hs.
Qed.

Lemma lower_byte_ascii (c : ascii) :
  ascii_byte (strings.lower_byte c) = ascii_byte c.
Proof.
  unfold strings.lower_byte, ascii_byte.
  destruct ((65 <=? byte_val c) && (byte_val c <=? 90)) eqn:Hu; [|reflexivity].
  zbool. rewrite byte_val_of.
  rewrite Z.mod_small by lia.
  destruct (Z.ltb_spec (byte_val c + (97 - 65)) 128), (Z.ltb_spec (byte_val c) 128);
    try reflexivity; lia.
Qed.

Lemma fold_case_ascii (s : string) :
  all_bytes ascii_byte (fold_case s) = all_bytes ascii_byte s.
Proof.
  induction s as [|c s IH]; simpl; [reflexivity|].
  fold (fold_case s). now rewrite IH, lower_byte_ascii.
Qed.

(** A string equal to [t] up to the case of A to Z, for [t] in ASCII
    and lower case, consists of ASCII bytes and lowers to [t]. *)
Lemma equal_fold_lower `{Libraries} (s t : string) :
  all_bytes ascii_byte t = true → fold_case t = t →
  equal_fold s t = true →
  all_bytes ascii_byte s = true ∧ strings.ToLower s = t ∧ bytes.ToLower s = t.
Proof.
  intros Ht Hft Heq. unfold equal_fold in Heq.
  apply String.eqb_eq in Heq. rewrite Hft in Heq.
  assert (Hs : all_bytes ascii_byte s = true).
  { rewrite <- fold_case_ascii, Heq. exact Ht. }
  split; [exact Hs|].
  now rewrite strings_ToLower_ascii, bytes_ToLower_ascii.
Qed.

(** ** The level check *)

Lemma token_parses `{Libraries} (s : string) :
  is_severity_token s = true → level_parses s = true.
Proof.
  unfold is_severity_token, severity_tokens. simpl. rewrite orb_false_r.
  intros Htok.
  assert (Hlow : ∃ t, In t severity_tokens ∧ bytes.ToLower s = t).
  { unfold severity_tokens. zbool.
    destruct Htok as [Hd|[Hd|[Hd|[Hd|[Hd|[Hd|Hd]]]]]];
      (apply equal_fold_lower in Hd as (_ & _ & Hd); [|reflexivity|reflexivity]);
      eexists; (split; [|exact Hd]); simpl; tauto. }
  destruct Hlow as (t & Hin & Ht).
  unfold level_parses, parse_level, zapcore.UnmarshalText.
  destruct (zapcore.unmarshalText 0 s) as [ok l] eqn:E1.
  destruct ok; [reflexivity|].
  rewrite Ht. unfold severity_tokens in Hin. simpl in Hin.
  destruct Hin as [Hd|[Hd|[Hd|[Hd|[Hd|[Hd|[Hd|[]]]]]]]]; subst t; reflexivity.
Qed.

Lemma not_parsed_not_token `{Libraries} (s : string) :
  level_parses s = false → is_severity_token s = false.
Proof.
  intros Hp. destruct (is_severity_token s) eqn:Ht; [|reflexivity].
  apply token_parses in Ht. congruence.
Qed.

(** The errors of [Validate] when the level parses: at most the format
    error, which is not a level error. *)
Lemma Validate_level_ok `{Libraries} (o : log.Options) :
  level_parses (log.Level o) = true →
  ∃ errs, log.Validate o = Done errs o
          ∧ Forall (λ e, is_level_error e = false) errs.
Proof.
  intros Hp. rewrite Validate_run. unfold level_parses in Hp.
  destruct (fst (parse_level (log.Level o))); [discriminate|].
  eexists. split; [reflexivity|]. simpl.
  destruct (negb _ && negb _); constructor; [reflexivity|constructor].
Qed.

Lemma valid_format_passes `{Libraries} (s : string) :
  valid_format s = true →
  negb (String.eqb (strings.ToLower s) "console")
    && negb (String.eqb (strings.ToLower s) "json") = false.
Proof.
  unfold valid_format. intros Hv. apply orb_true_iff in Hv as [Hv|Hv];
    (apply equal_fold_lower in Hv as (_ & Hv & _); [|reflexivity|reflexivity]);
    rewrite Hv; reflexivity.
Qed.

Lemma switch_level_In (cases : list (string * zapcore.Level)) (s : string)
    (v : zapcore.Level) :
  zapcore.switch_level cases s = Some v → In s (List.map fst cases).
Proof.
  induction cases as [|[k l] rest IH]; [discriminate|].
  cbn [zapcore.switch_level List.map fst In].
  destruct (String.eqb_spec s k) as [->|_]; [now left|].
  intros H. right. now apply IH.
Qed.

Lemma lower_byte_idem (c : ascii) :
  strings.lower_byte (strings.lower_byte c) = strings.lower_byte c.
Proof.
  unfold strings.lower_byte at 2 3.
  destruct ((65 <=? byte_val c) && (byte_val c <=? 90)) eqn:Hu; [|unfold strings.lower_byte; now rewrite Hu].
  zbool. unfold strings.lower_byte. rewrite byte_val_of, Z.mod_small by lia.
  destruct (Z.leb_spec (byte_val c + (97 - 65)) 90); [lia|].
  now rewrite andb_false_r.
Qed.

Lemma fold_case_idem (s : string) : fold_case (fold_case s) = fold_case s.
Proof.
  induction s as [|c s IH]; [reflexivity|].
  unfold fold_case in *. cbn [map_bytes]. now rewrite IH, lower_byte_idem.
Qed.

Lemma fold_case_empty (s : string) : fold_case s = "" → s = "".
Proof. destruct s; [reflexivity|discriminate]. Qed.

(** A key of the switch of [unmarshalText] is the empty string, a
    severity token in lower or upper case or, in the releases that have
    it, "warning" in lower or upper case. *)
Lemma level_key_token `{Libraries} (k : string) :
  In k (List.map fst zapcore.levelCases) →
  k = "" ∨ is_severity_token k = true
  ∨ (zapWarning = true ∧ (k = "warning" ∨ k = "WARNING")).
Proof.
  unfold zapcore.levelCases. rewrite List.map_app, in_app_iff.
  intros [Hk|Hk].
  - cbn [List.map fst In] in Hk.
    repeat (destruct Hk as [<-|Hk];
            [first [left; reflexivity|right; left; reflexivity]|]).
    destruct Hk.
  - destruct zapWarning; [|destruct Hk].
    cbn [List.map fst In] in Hk. right. right. split; [reflexivity|].
    destruct Hk as [<-|[<-|[]]]; [now left|now right].
Qed.

Lemma is_severity_token_fold (s : string) :
  is_severity_token (fold_case s) = is_severity_token s.
Proof.
  unfold is_severity_token, equal_fold. now rewrite fold_case_idem.
Qed.

Lemma warning_alias_parses `{Libraries} (s : string) :
  warning_alias s = true → level_parses s = true.
Proof.
  unfold warning_alias. intros Ha. apply andb_true_iff in Ha as [Hw Hs].
  apply equal_fold_lower in Hs as (_ & _ & Hs); [|reflexivity|reflexivity].
  unfold level_parses, parse_level, zapcore.UnmarshalText, zapcore.unmarshalText.
  destruct (zapcore.switch_level zapcore.levelCases s); [reflexivity|].
  rewrite Hs. unfold zapcore.levelCases. rewrite Hw. reflexivity.
Qed.

(** On ASCII text the parser accepts the empty string, the severity
    tokens in any letter case and, in the releases that know it,
    "warning" in any letter case; it accepts nothing else. *)
Lemma ascii_level_parses `{Libraries} (s : string) :
  all_bytes ascii_byte s = true →
  level_parses s = String.eqb s "" || is_severity_token s || warning_alias s.
Proof.
  intros Hs.
  destruct (String.eqb_spec s "") as [->|Hne]; [reflexivity|].
  cbn [orb]. destruct (is_severity_token s) eqn:Htok; [now apply token_parses|].
  cbn [orb]. destruct (warning_alias s) eqn:Hal; [now apply warning_alias_parses|].
  assert (Hkey : ∀ k, In k (List.map fst zapcore.levelCases) → fold_case s = fold_case k →
                      False).
  { intros k Hk Hfold. apply level_key_token in Hk as [->|[Hk|[Hw Hk]]].
    - apply fold_case_empty in Hfold. contradiction.
    - rewrite <- is_severity_token_fold in Htok, Hk. congruence.
    - unfold warning_alias, equal_fold in Hal. rewrite Hw, Hfold in Hal.
      destruct Hk as [->| ->]; discriminate. }
  unfold level_parses, parse_level, zapcore.UnmarshalText, zapcore.unmarshalText.
  destruct (zapcore.switch_level zapcore.levelCases s) as [v|] eqn:E1.
  - apply switch_level_In in E1. destruct (Hkey s E1 eq_refl).
  - rewrite (bytes_ToLower_ascii s Hs).
    destruct (zapcore.switch_level zapcore.levelCases (fold_case s)) as [v|] eqn:E2;
      [|reflexivity].
    apply switch_level_In in E2. destruct (Hkey _ E2). now rewrite fold_case_idem.
Qed.

(** C10: a record whose [Level] is the empty string gets no
    level-related error from [Validate]: the parser takes the empty
    string for the info level, although it is none of the severity
    tokens. *)
Theorem Validate_empty_Level `{Libraries} (o : log.Options) :
  log.Level o = "" →
  parse_level "" = (None, zapcore.InfoLevel)
  ∧ is_severity_token "" = false
  ∧ ∃ errs, log.Validate o = Done errs o
            ∧ Forall (λ e, is_level_error e = false) errs.
Proof.
  intros Hl. split; [reflexivity|]. split; [reflexivity|].
  apply Validate_level_ok. rewrite Hl. reflexivity.
Qed.

Lemma Validate_empty_Level_witness :
  parse_level (H := sampleLibraries) "" = (None, zapcore.InfoLevel)
  ∧ is_severity_token "" = false
  ∧ ∃ errs, log.Validate (H := sampleLibraries) (with_Level "" log.NewOptions)
              = Done errs (with_Level "" log.NewOptions)
            ∧ Forall (λ e, is_level_error e = false) errs.
Proof.
  apply (@Validate_empty_Level sampleLibraries (with_Level "" log.NewOptions)).
  reflexivity.
Defined.

(** C3, as amended: what decides the level check is the parser of
    zapcore, which takes more than the severity tokens.  With a valid
    [Format]: when [Level] is ASCII text, [Validate] returns exactly one
    error, the level error, unless [Level] is empty, a severity token in
    some letter case or, where zap knows it, "warning" in some letter
    case, and then it returns none; whatever the bytes of [Level], a
    [Level] the parser rejects gives exactly the level error.  Whatever
    the [Format]: a severity token in any letter case parses, and a
    [Level] that parses gives no level error. *)
Theorem Validate_level_check `{Libraries} (o : log.Options) :
  (all_bytes ascii_byte (log.Level o) = true →
   valid_format (log.Format o) = true →
   log.Validate o
   = Done (if String.eqb (log.Level o) "" || is_severity_token (log.Level o)
              || warning_alias (log.Level o)
           then []
           else [fmt.Errorf_q "unrecognized level: " (log.Level o)]) o
   ∧ is_level_error (fmt.Errorf_q "unrecognized level: " (log.Level o)) = true)
  ∧ (level_parses (log.Level o) = false → valid_format (log.Format o) = true →
     ∃ e, log.Validate o = Done [e] o
          ∧ is_level_error e = true
          ∧ e = fmt.Errorf_q "unrecognized level: " (log.Level o))
  ∧ (is_severity_token (log.Level o) = true →
     level_parses (log.Level o) = true
     ∧ ∃ errs, log.Validate o = Done errs o
               ∧ Forall (λ e, is_level_error e = false) errs)
  ∧ (level_parses (log.Level o) = true →
     ∃ errs, log.Validate o = Done errs o
             ∧ Forall (λ e, is_level_error e = false) errs).
Proof.
  assert (Hrej : level_parses (log.Level o) = false → valid_format (log.Format o) = true →
                 log.Validate o = Done [fmt.Errorf_q "unrecognized level: " (log.Level o)] o).
  { intros Hp Hf. apply level_parses_spec in Hp as [e He].
    rewrite Validate_run, He, (valid_format_passes _ Hf).
    apply parse_level_error in He. now subst e. }
  split; [|split; [|split]].
  - intros Hs Hf. split; [|reflexivity].
    rewrite <- (ascii_level_parses _ Hs).
    destruct (level_parses (log.Level o)) eqn:Hp; [|now apply Hrej].
    rewrite Validate_run, (valid_format_passes _ Hf). unfold level_parses in Hp.
    destruct (fst (parse_level (log.Level o))); [discriminate|reflexivity].
  - intros Hp Hf. eexists. split; [now apply Hrej|]. split; reflexivity.
  - intros Ht. apply token_parses in Ht. split; [exact Ht|].
    now apply Validate_level_ok.
  - apply Validate_level_ok.
Qed.

Lemma Validate_level_check_witness :
  (log.Validate (H := sampleLibraries) (with_Level "not-a-level" log.NewOptions)
   = Done [fmt.Errorf_q (H := sampleLibraries) "unrecognized level: " "not-a-level"]
          (with_Level "not-a-level" log.NewOptions)
   ∧ is_level_error (fmt.Errorf_q (H := sampleLibraries) "unrecognized level: " "not-a-level")
     = true)
  ∧ (∃ e, log.Validate (H := sampleLibraries) (with_Level "not-a-level" log.NewOptions)
            = Done [e] (with_Level "not-a-level" log.NewOptions)
          ∧ is_level_error e = true
          ∧ e = fmt.Errorf_q (H := sampleLibraries) "unrecognized level: " "not-a-level")
  ∧ (level_parses (H := sampleLibraries) "WaRn" = true
     ∧ ∃ errs, log.Validate (H := sampleLibraries) (with_Level "WaRn" log.NewOptions)
                 = Done errs (with_Level "WaRn" log.NewOptions)
               ∧ Forall (λ e, is_level_error e = false) errs)
  ∧ (∃ errs, log.Validate (H := sampleLibraries) (with_Level "" (with_Format "xml" log.NewOptions))
               = Done errs (with_Level "" (with_Format "xml" log.NewOptions))
             ∧ Forall (λ e, is_level_error e = false) errs).
Proof.
  split; [|split; [|split]].
  - apply (proj1 (@Validate_level_check sampleLibraries
                    (with_Level "not-a-level" log.NewOptions))); reflexivity.
  - apply (proj1 (proj2 (@Validate_level_check sampleLibraries
                           (with_Level "not-a-level" log.NewOptions)))); reflexivity.
  - apply (proj1 (proj2 (proj2 (@Validate_level_check sampleLibraries
                                  (with_Level "WaRn" log.NewOptions))))); reflexivity.
  - apply (proj2 (proj2 (proj2 (@Validate_level_check sampleLibraries
                                  (with_Level "" (with_Format "xml" log.NewOptions))))));
      reflexivity.
Defined.

(** C3 as stated fails: the empty string is none of the severity tokens
    in any letter case, and neither is "INFO" with U+0130 (bytes C4 B0)
    for its first letter; with either as [Level] and the default
    [Format], [Validate] returns no error at all. *)
Lemma Validate_unrecognized_Level_accepted :
  let dotted := String (byte_of 0xC4) (String (byte_of 0xB0) "NFO") in
  is_severity_token "" = false
  ∧ is_severity_token dotted = false
  ∧ valid_format (log.Format log.NewOptions) = true
  ∧ log.Validate (H := sampleLibraries) (with_Level "" log.NewOptions)
    = Done [] (with_Level "" log.NewOptions)
  ∧ log.Validate (H := sampleLibraries) (with_Level dotted log.NewOptions)
    = Done [] (with_Level dotted log.NewOptions).
Proof. repeat split; reflexivity. Qed.

(** ** Purity *)

(** C6: [Validate] leaves every field of the record as it was, and
    two calls in a row on the unchanged record return the same error
    sequence. *)
Theorem Validate_pure_idempotent `{Libraries} (o : log.Options) :
  ∃ errs, log.Validate o = Done errs o
          ∧ (e1 ← log.Validate; e2 ← log.Validate; mret (e1, e2)) o
            = Done (errs, errs) o.
Proof.
  eexists. split; [apply Validate_run|].
  unfold mbind, M_bind. rewrite !Validate_run. reflexivity.
Qed.

(** ** Decoding, encoding and lowering outside ASCII *)

Lemma lor_mul_low (a n b : Z) :
  0 <= n → 0 <= b < 2 ^ n → Z.lor (a * 2 ^ n) b = a * 2 ^ n + b.
Proof.
  intros Hn Hb.
  assert (Hd : Z.land (a * 2 ^ n) b = 0).
  { apply Z.bits_inj'. intros i Hi. rewrite Z.land_spec, Z.bits_0.
    rewrite <- Z.shiftl_mul_pow2 by lia.
    destruct (Z.lt_ge_cases i n).
    - rewrite Z.shiftl_spec_low by lia. reflexivity.
    - rewrite <- (Z.mod_small b (2 ^ n)) by lia.
      rewrite Z.mod_pow2_bits_high by lia. apply andb_false_r. }
  rewrite <- Z.lxor_lor by exact Hd.
  rewrite <- Z.add_nocarry_lxor by exact Hd. reflexivity.
Qed.

Lemma first_cases (b : Z) :
  0x80 <= b < 256 →
  utf8.first b = utf8.xx
  ∨ (utf8.first b = utf8.s1 ∧ 0xC2 <= b <= 0xDF)
  ∨ (utf8.first b = utf8.s2 ∧ b = 0xE0)
  ∨ (utf8.first b = utf8.s3 ∧ 0xE1 <= b <= 0xEF)
  ∨ (utf8.first b = utf8.s4 ∧ b = 0xED)
  ∨ (utf8.first b = utf8.s5 ∧ b = 0xF0)
  ∨ (utf8.first b = utf8.s6 ∧ 0xF1 <= b <= 0xF3)
  ∨ (utf8.first b = utf8.s7 ∧ b = 0xF4).
Proof.
  intros Hb. unfold utf8.first.
  repeat match goal with
         | |- context [?a <? ?c] => destruct (Z.ltb_spec a c)
         | |- context [?a =? ?c] => destruct (Z.eqb_spec a c)
         end; try lia; tauto || (right; tauto) || idtac.
Qed.



Lemma lor2 (x y : Z) :
  0 <= y < 64 → Z.lor (x * 2 ^ 6) y = x * 64 + y.
Proof. intros. rewrite lor_mul_low by lia. lia. Qed.

Lemma lor3 (x y z : Z) :
  0 <= y < 64 → 0 <= z < 64 →
  Z.lor (Z.lor (x * 2 ^ 12) (y * 2 ^ 6)) z = x * 4096 + y * 64 + z.
Proof.
  intros. rewrite (lor_mul_low x 12) by lia.
  replace (x * 2 ^ 12 + y * 2 ^ 6) with ((x * 64 + y) * 2 ^ 6) by lia.
  rewrite lor_mul_low by lia. lia.
Qed.

Lemma lor4 (x y z w : Z) :
  0 <= y < 64 → 0 <= z < 64 → 0 <= w < 64 →
  Z.lor (Z.lor (Z.lor (x * 2 ^ 18) (y * 2 ^ 12)) (z * 2 ^ 6)) w
  = x * 262144 + y * 4096 + z * 64 + w.
Proof.
  intros. rewrite (lor_mul_low x 18) by lia.
  replace (x * 2 ^ 18 + y * 2 ^ 12) with ((x * 64 + y) * 2 ^ 12) by lia.
  rewrite (lor_mul_low _ 12) by lia.
  replace ((x * 64 + y) * 2 ^ 12 + z * 2 ^ 6) with ((x * 4096 + y * 64 + z) * 2 ^ 6) by lia.
  rewrite lor_mul_low by lia. lia.
Qed.

Ltac decode_head X :=
  eval_closed (utf8.as_ <=? X); cbv iota;
  eval_closed (Z.land X 7);
  eval_closed (utf8.acceptRanges (Z.shiftr X 4)); cbn [fst snd];
  eval_closed (2 <=? 2); eval_closed (2 <=? 3);
  eval_closed (3 <=? 2); eval_closed (3 <=? 3);
  eval_closed (4 <=? 2); eval_closed (4 <=? 3); cbv iota.

Ltac decode_step Hbad :=
  first
    [ exact Hbad
    | case_Zcmp
    | match goal with
      | |- context [match ?t with EmptyString => _ | String _ _ => _ end] =>
        is_var t;
        let c := fresh "c" in
        let r := fresh "t" in
        destruct t as [|c r]; [|pose proof (byte_val_range c)]
      end ];
  cbn [orb]; cbv iota.

Ltac bounds_done :=
  do 2 eexists; (split; [reflexivity|]);
  unfold utf8.mask2, utf8.mask3, utf8.mask4, utf8.maskx, utf8.MaxRune;
  change 0x1F with (Z.ones 5); change 0x0F with (Z.ones 4);
  change 0x07 with (Z.ones 3); change 0x3F with (Z.ones 6);
  rewrite !Z.land_ones by lia;
  rewrite !Z.shiftl_mul_pow2 by lia;
  first [ rewrite lor4 by (apply Z.mod_pos_bound; lia)
        | rewrite lor3 by (apply Z.mod_pos_bound; lia)
        | rewrite lor2 by (apply Z.mod_pos_bound; lia) ];
  eval_closed (2 ^ 3); eval_closed (2 ^ 4); eval_closed (2 ^ 5); eval_closed (2 ^ 6);
  Z.div_mod_to_equations; lia.

Lemma decode_nonascii (c : ascii) (t : string) :
  0x80 <= byte_val c →
  ∃ r w, utf8.DecodeRuneInString (String c t) = (r, Datatypes.S w)
         ∧ 0x80 <= r <= utf8.MaxRune.
Proof.
  intros Hc. pose proof (byte_val_range c) as Hr.
  unfold utf8.DecodeRuneInString. cbv zeta.
  generalize (Z.of_nat (String.length (String c t))). intros n.
  set (b0 := byte_val c) in *.
  assert (Hbad : ∃ r w, (utf8.RuneError, 1%nat) = (r, Datatypes.S w) ∧ 0x80 <= r <= utf8.MaxRune).
  { do 2 eexists. split; [reflexivity|]. unfold utf8.RuneError, utf8.MaxRune. lia. }
  unfold utf8.locb, utf8.hicb.
  destruct (first_cases b0 ltac:(lia)) as
    [Hf|[[Hf Hb]|[[Hf Hb]|[[Hf Hb]|[[Hf Hb]|[[Hf Hb]|[[Hf Hb]|[Hf Hb]]]]]]]];
    rewrite Hf.
  - eval_closed (utf8.as_ <=? utf8.xx). cbv iota.
    eval_closed (Z.odd utf8.xx). cbv iota.
    eval_closed (Z.lnot (-1)). rewrite Z.land_0_r.
    eval_closed (Z.land utf8.RuneError (-1)). rewrite Z.lor_0_l.
    do 2 eexists. split; [reflexivity|]. unfold utf8.MaxRune. lia.
  - decode_head utf8.s1. repeat decode_step Hbad. bounds_done.
  - decode_head utf8.s2. repeat decode_step Hbad. bounds_done.
  - decode_head utf8.s3. repeat decode_step Hbad. bounds_done.
  - decode_head utf8.s4. repeat decode_step Hbad. bounds_done.
  - decode_head utf8.s5. repeat decode_step Hbad. bounds_done.
  - decode_head utf8.s6. repeat decode_step Hbad. bounds_done.
  - decode_head utf8.s7. repeat decode_step Hbad. bounds_done.
Qed.

Lemma lor_lead (k n y : Z) :
  0 <= n → 0 <= y < 2 ^ n → 128 <= k * 2 ^ n → k * 2 ^ n + y < 256 →
  ascii_byte (byte_of (Z.lor (k * 2 ^ n) y)) = false.
Proof.
  intros Hn Hy Hk Hlt. rewrite lor_mul_low by lia.
  unfold ascii_byte. rewrite byte_val_of, Z.mod_small by lia.
  apply Z.ltb_ge. lia.
Qed.

Lemma EncodeRune_lead (x : Z) :
  0x80 <= x <= utf8.MaxRune →
  ∃ c t, utf8.EncodeRune x = String c t ∧ ascii_byte c = false.
Proof.
  unfold utf8.MaxRune. intros Hx. unfold utf8.EncodeRune. cbv zeta.
  rewrite (Z.mod_small x (2 ^ 32)) by lia.
  unfold utf8.rune1Max, utf8.rune2Max, utf8.rune3Max, utf8.MaxRune,
    utf8.surrogateMin, utf8.surrogateMax, utf8.t2, utf8.t3, utf8.t4.
  destruct (Z.leb_spec x 0x7F); [lia|].
  destruct (Z.leb_spec x 0x7FF).
  - do 2 eexists. split; [reflexivity|].
    rewrite Z.shiftr_div_pow2 by lia.
    change 0xC0 with (3 * 2 ^ 6).
    apply lor_lead; try lia.
    + split; [apply Z.div_pos; lia|]. apply Z.div_lt_upper_bound; lia.
    + assert (x / 2 ^ 6 < 32) by (apply Z.div_lt_upper_bound; lia). lia.
  - destruct ((1114111 <? x) || ((55296 <=? x) && (x <=? 57343))) eqn:Hbad.
    + cbn [orb]. cbv iota. do 2 eexists. split; [reflexivity|]. reflexivity.
    + cbn [orb]. destruct (Z.leb_spec x 0xFFFF).
      * do 2 eexists. split; [reflexivity|].
        rewrite Z.shiftr_div_pow2 by lia.
        change 0xE0 with (7 * 2 ^ 5).
        assert (0 <= x / 2 ^ 12 < 16).
        { split; [apply Z.div_pos; lia|]. apply Z.div_lt_upper_bound; lia. }
        apply lor_lead; lia.
      * do 2 eexists. split; [reflexivity|].
        rewrite Z.shiftr_div_pow2 by lia.
        change 0xF0 with (15 * 2 ^ 4).
        assert (0 <= x / 2 ^ 18 < 5).
        { split; [apply Z.div_pos; lia|]. apply Z.div_lt_upper_bound; lia. }
        apply lor_lead; lia.
Qed.

Lemma lowered_rune_marked `{Libraries} (r : Z) :
  lower_stays_outside_ascii _ →
  0x80 <= r <= utf8.MaxRune →
  any_bytes marks
    (if 0 <=? unicode.ToLower r then utf8.EncodeRune (unicode.ToLower r) else "") = true.
Proof.
  intros Hlow Hr. unfold unicode.ToLower, unicode.MaxASCII.
  destruct (Z.leb_spec r 0x7F); [lia|].
  destruct (Hlow r Hr) as [Hc|[[_ Hc]|[_ Hc]]].
  - destruct (Z.leb_spec 0 (caseLower r)); [|lia].
    destruct (EncodeRune_lead _ Hc) as (c & t & -> & Hc').
    simpl. unfold marks. now rewrite Hc'.
  - rewrite Hc. reflexivity.
  - rewrite Hc. reflexivity.
Qed.

Lemma range_fuel_ascii (f : nat) (c : ascii) (t : string) :
  ascii_byte c = true →
  utf8.range_fuel (Datatypes.S f) (String c t) = (byte_val c, str1 c) :: utf8.range_fuel f t.
Proof.
  intros Hc. cbn [utf8.range_fuel]. unfold ascii_byte in Hc.
  unfold utf8.RuneSelf. rewrite Hc. reflexivity.
Qed.

Lemma range_fuel_nonascii (f : nat) (c : ascii) (t : string) :
  ascii_byte c = false →
  ∃ r src rest, utf8.range_fuel (Datatypes.S f) (String c t) = (r, String c src) :: rest
                ∧ 0x80 <= r <= utf8.MaxRune.
Proof.
  intros Hc. cbn [utf8.range_fuel]. unfold ascii_byte in Hc.
  unfold utf8.RuneSelf. rewrite Hc.
  apply Z.ltb_ge in Hc.
  destruct (decode_nonascii c t Hc) as (r & w & -> & Hr).
  cbn [take_bytes]. eauto.
Qed.

Lemma map_rest_cons (f : Z → Z) (cs : Z * string) (rs : list (Z * string)) :
  strings.map_rest f (cs :: rs)
  = (if 0 <=? f (fst cs) then utf8.EncodeRune (f (fst cs)) else "") +:+ strings.map_rest f rs.
Proof. reflexivity. Qed.

Lemma map_rest_marked `{Libraries} (fuel : nat) (s : string) :
  lower_stays_outside_ascii _ →
  all_bytes ascii_byte s = false →
  any_bytes marks (strings.map_rest unicode.ToLower (utf8.range_fuel fuel s)) = true
  ∨ (fuel < String.length s)%nat.
Proof.
  intros Hlow. revert s. induction fuel as [|fuel IH]; intros s Hs.
  - destruct s; [discriminate|]. right. simpl. lia.
  - destruct s as [|c t]; [discriminate|]. simpl in Hs.
    destruct (ascii_byte c) eqn:Hc.
    + rewrite range_fuel_ascii by exact Hc. rewrite map_rest_cons, any_bytes_app.
      destruct (IH t Hs) as [IH'|IH']; [left|right; simpl; lia].
      rewrite IH'. apply orb_true_r.
    + destruct (range_fuel_nonascii fuel c t Hc) as (r & src & rest & -> & Hr).
      left. rewrite map_rest_cons, any_bytes_app. cbn [fst].
      now rewrite lowered_rune_marked.
Qed.

Lemma map_scan_pre_marked (f : Z → Z) (rs : list (Z * string)) (pre : string) :
  any_bytes marks pre = true → any_bytes marks (strings.map_scan f pre rs) = true.
Proof.
  revert pre. induction rs as [|[c src] rs IH]; intros pre Hpre; simpl; [exact Hpre|].
  repeat match goal with
         | |- context [if ?b then _ else _] => destruct b
         end;
    try (apply IH); rewrite ?any_bytes_app, Hpre; reflexivity.
Qed.

Lemma map_scan_marked `{Libraries} (fuel : nat) (s pre : string) :
  lower_stays_outside_ascii _ →
  all_bytes ascii_byte s = false →
  any_bytes marks (strings.map_scan unicode.ToLower pre (utf8.range_fuel fuel s)) = true
  ∨ (fuel < String.length s)%nat.
Proof.
  intros Hlow. revert s pre. induction fuel as [|fuel IH]; intros s pre Hs.
  - destruct s; [discriminate|]. right. simpl. lia.
  - destruct s as [|c t]; [discriminate|]. simpl in Hs.
    destruct (ascii_byte c) eqn:Hc.
    + rewrite range_fuel_ascii by exact Hc. cbn [strings.map_scan].
      destruct (map_rest_marked fuel t Hlow Hs) as [Hrest|Hlt]; [|right; simpl; lia].
      repeat match goal with
             | |- context [if ?b then _ else _] => destruct b
             end;
        try (destruct (IH t (pre +:+ str1 c) Hs) as [IH'|IH'];
             [left; exact IH'|right; simpl; lia]);
        left; rewrite !any_bytes_app, Hrest, !orb_true_r; reflexivity.
    + destruct (range_fuel_nonascii fuel c t Hc) as (r & src & rest & -> & Hr).
      left. cbn [strings.map_scan].
      assert (Hsrc : any_bytes marks (pre +:+ String c src) = true).
      { rewrite any_bytes_app. simpl. unfold marks at 2. rewrite Hc. simpl.
        apply orb_true_r. }
      pose proof (lowered_rune_marked r Hlow Hr) as Henc.
      destruct ((unicode.ToLower r =? r) && negb (r =? utf8.RuneError));
        [now apply map_scan_pre_marked|].
      destruct ((r =? utf8.RuneError) && negb (String.length (String c src) =? 1)%nat
                && (unicode.ToLower r =? r));
        [now apply map_scan_pre_marked|].
      rewrite !any_bytes_app, Henc. rewrite orb_true_l. apply orb_true_r.
Qed.

(** Lowering a string that has a byte outside ASCII never gives
    "console" or "json". *)
Lemma ToLower_nonascii_marked `{Libraries} (s : string) :
  lower_stays_outside_ascii _ →
  all_bytes ascii_byte s = false →
  any_bytes marks (strings.ToLower s) = true.
Proof.
  intros Hlow Hs. rewrite strings_ToLower_nonascii by exact Hs.
  unfold strings.Map, utf8.range.
  destruct (map_scan_marked (String.length s) s "" Hlow Hs); [assumption|lia].
Qed.

Lemma invalid_format_fails `{Libraries} (s : string) :
  lower_stays_outside_ascii _ →
  valid_format s = false →
  negb (String.eqb (strings.ToLower s) "console")
    && negb (String.eqb (strings.ToLower s) "json") = true.
Proof.
  intros Hlow Hv. unfold valid_format, equal_fold in Hv.
  apply orb_false_iff in Hv as [Hc Hj].
  destruct (all_bytes ascii_byte s) eqn:Hs.
  - rewrite strings_ToLower_ascii by exact Hs.
    change (fold_case "console") with "console" in Hc.
    change (fold_case "json") with "json" in Hj.
    now rewrite Hc, Hj.
  - pose proof (ToLower_nonascii_marked s Hlow Hs) as Hm.
    destruct (String.eqb_spec (strings.ToLower s) "console") as [E|_];
      [rewrite E in Hm; discriminate|].
    destruct (String.eqb_spec (strings.ToLower s) "json") as [E|_];
      [rewrite E in Hm; discriminate|].
    reflexivity.
Qed.

Lemma sampleLibraries_lower : lower_stays_outside_ascii sampleLibraries.
Proof.
  intros r Hr. unfold utf8.MaxRune in *. simpl.
  destruct (Z.eqb_spec r 0x130); [right; left; split; [assumption|reflexivity]|].
  destruct (Z.eqb_spec r 0x212A); [right; right; split; [assumption|reflexivity]|].
  left. destruct ((192 <=? r) && (r <=? 222) && negb (r =? 215)) eqn:E; zbool; lia.
Qed.

(** ** Quoting *)

Lemma quote_rune_plain `{Libraries} (c : ascii) :
  plain_byte c = true → strconv.quote_rune (byte_val c, str1 c) = str1 c.
Proof.
  unfold plain_byte. intros Hp. zbool. destruct Hp as [[[Hlo Hhi] Hq] Hb].
  unfold strconv.quote_rune, utf8.RuneError. cbn [String.length str1 Nat.eqb andb].
  destruct (Z.eqb_spec (byte_val c) 65533); [lia|].
  unfold strconv.appendEscapedRune.
  change (byte_val dquote) with 34. change (byte_val backslash) with 92.
  destruct (Z.eqb_spec (byte_val c) 34); [lia|].
  destruct (Z.eqb_spec (byte_val c) 92); [lia|]. cbn [orb].
  unfold strconv.IsPrint.
  destruct (Z.leb_spec (byte_val c) 255); [|lia].
  destruct (Z.leb_spec 32 (byte_val c)); [|lia].
  destruct (Z.leb_spec (byte_val c) 126); [|lia]. cbn [andb].
  unfold utf8.EncodeRune, utf8.rune1Max. cbv zeta.
  rewrite Z.mod_small by lia.
  destruct (Z.leb_spec (byte_val c) 127); [|lia].
  now rewrite byte_of_val.
Qed.

Lemma plain_byte_ascii (c : ascii) : plain_byte c = true → ascii_byte c = true.
Proof. unfold plain_byte, ascii_byte. intros Hp. zbool. lia. Qed.

Lemma quote_body_plain `{Libraries} (s : string) (fuel : nat) :
  plain_text s = true → (String.length s <= fuel)%nat →
  concat_strings (List.map strconv.quote_rune (utf8.range_fuel fuel s)) = s.
Proof.
  revert fuel. induction s as [|c t IH]; intros fuel Hp Hf.
  - destruct fuel; reflexivity.
  - destruct fuel as [|fuel]; [simpl in Hf; lia|].
    simpl in Hp. apply andb_true_iff in Hp as [Hc Ht].
    rewrite range_fuel_ascii by now apply plain_byte_ascii.
    cbn [List.map concat_strings]. rewrite quote_rune_plain by exact Hc.
    rewrite IH; [reflexivity|exact Ht|simpl in Hf; lia].
Qed.

(** On printable ASCII without double quote and backslash, [%q] puts
    the string between double quotes and changes nothing else. *)
Lemma Quote_plain `{Libraries} (s : string) :
  plain_text s = true → strconv.Quote s = quoted s.
Proof.
  intros Hp. unfold strconv.Quote, quoted, utf8.range.
  now rewrite quote_body_plain.
Qed.

Lemma HasPrefix_app (s t : string) : HasPrefix (s +:+ t) s = true.
Proof.
  induction s as [|c s IH]; simpl; [now destruct t|].
  now rewrite Ascii.eqb_refl.
Qed.

Lemma Contains_eq (s sub : string) :
  Contains s sub
  = HasPrefix s sub || match s with
                       | EmptyString => false
                       | String _ t => Contains t sub
                       end.
Proof. destruct s; reflexivity. Qed.

Lemma Contains_prefix (t s : string) : HasPrefix t s = true → Contains t s = true.
Proof. intros Hp. rewrite Contains_eq, Hp. reflexivity. Qed.

Lemma Contains_cons (c : ascii) (t s : string) :
  Contains t s = true → Contains (String c t) s = true.
Proof. intros Hc. rewrite Contains_eq, Hc. apply orb_true_r. Qed.

Lemma Contains_app_l (a t s : string) :
  Contains t s = true → Contains (a +:+ t) s = true.
Proof.
  intros Ht. induction a as [|c a IH]; simpl; [exact Ht|].
  now apply Contains_cons.
Qed.

Lemma Contains_quoted (pre s : string) : Contains (pre +:+ quoted s) s = true.
Proof.
  apply Contains_app_l. unfold quoted. apply Contains_cons, Contains_prefix.
  apply HasPrefix_app.
Qed.

(** ** The format check *)

(** C2, as amended: when [Format] is not "console" or "json" up to the
    case of its letters and [Level] parses, [Validate] returns exactly
    one error, the format error, whose message is the fixed prefix
    followed by [Format] in the quoted form of [%q]; when [Format] is
    printable ASCII without double quote and backslash, that form is
    [Format] itself between double quotes, so the message contains it
    with its case kept.  For "XML" on the defaults the message is the
    prefix followed by "XML" between double quotes. *)
Theorem Validate_format_error `{Libraries} :
  lower_stays_outside_ascii _ →
  (∀ o : log.Options,
     valid_format (log.Format o) = false →
     level_parses (log.Level o) = true →
     ∃ e, log.Validate o = Done [e] o
          ∧ is_format_error e = true
          ∧ Error e = "not a valid log format: " +:+ strconv.Quote (log.Format o)
          ∧ (plain_text (log.Format o) = true →
             Error e = "not a valid log format: " +:+ quoted (log.Format o)
             ∧ Contains (Error e) (log.Format o) = true))
  ∧ log.Validate (with_Format "XML" log.NewOptions)
    = Done [errorString ("not a valid log format: " +:+ quoted "XML")]
        (with_Format "XML" log.NewOptions).
Proof.
  intros Hlow. split; [|reflexivity].
  intros o Hf Hl. exists (fmt.Errorf_q "not a valid log format: " (log.Format o)).
  rewrite Validate_run, (invalid_format_fails _ Hlow Hf).
  unfold level_parses in Hl.
  destruct (fst (parse_level (log.Level o))); [discriminate|].
  split; [reflexivity|]. split; [reflexivity|]. split; [reflexivity|].
  intros Hp. unfold fmt.Errorf_q, Error. rewrite (Quote_plain _ Hp).
  split; [reflexivity|]. apply Contains_quoted.
Qed.

Lemma Validate_format_error_witness :
  (∃ e, log.Validate (H := sampleLibraries) (with_Format "Yaml" log.NewOptions)
          = Done [e] (with_Format "Yaml" log.NewOptions)
        ∧ is_format_error e = true
        ∧ Error e = "not a valid log format: " +:+ strconv.Quote (H := sampleLibraries) "Yaml"
        ∧ (plain_text "Yaml" = true →
           Error e = "not a valid log format: " +:+ quoted "Yaml"
           ∧ Contains (Error e) "Yaml" = true))
  ∧ log.Validate (H := sampleLibraries) (with_Format "XML" log.NewOptions)
    = Done [errorString ("not a valid log format: " +:+ quoted "XML")]
        (with_Format "XML" log.NewOptions).
Proof.
  split.
  - apply (proj1 (@Validate_format_error sampleLibraries sampleLibraries_lower)
             (with_Format "Yaml" log.NewOptions)); reflexivity.
  - apply (proj2 (@Validate_format_error sampleLibraries sampleLibraries_lower)).
Defined.

(** C2 as stated fails: with [Format] a backslash between two letters
    the single format error has the backslash doubled, so its message
    does not contain the original value. *)
Lemma Validate_format_message_escapes :
  let o := with_Format "a\b" log.NewOptions in
  valid_format (log.Format o) = false
  ∧ level_parses (H := sampleLibraries) (log.Level o) = true
  ∧ ∃ e, log.Validate (H := sampleLibraries) o = Done [e] o
         ∧ Error e = "not a valid log format: " +:+ quoted "a\\b"
         ∧ Contains (Error e) (log.Format o) = false.
Proof.
  cbv zeta. split; [reflexivity|]. split; [reflexivity|].
  exists (errorString ("not a valid log format: " +:+ quoted "a\\b")).
  split; [reflexivity|]. split; reflexivity.
Qed.

(** C4: when [Level] fails to parse and [Format] is not "console" or
    "json" up to case, [Validate] returns exactly two errors, the level
    error first and the format error second: both fields are
    checked. *)
Theorem Validate_both_invalid `{Libraries} (o : log.Options) :
  lower_stays_outside_ascii _ →
  level_parses (log.Level o) = false →
  valid_format (log.Format o) = false →
  ∃ e1 e2, log.Validate o = Done [e1; e2] o
           ∧ e1 = fmt.Errorf_q "unrecognized level: " (log.Level o)
           ∧ e2 = fmt.Errorf_q "not a valid log format: " (log.Format o)
           ∧ is_level_error e1 = true ∧ is_format_error e1 = false
           ∧ is_format_error e2 = true ∧ is_level_error e2 = false.
Proof.
  intros Hlow Hl Hf. apply level_parses_spec in Hl as [e He].
  do 2 eexists. rewrite Validate_run, He, (invalid_format_fails _ Hlow Hf).
  apply parse_level_error in He. subst e.
  split; [reflexivity|]. repeat split; reflexivity.
Qed.

Lemma Validate_both_invalid_witness :
  ∃ e1 e2,
    log.Validate (H := sampleLibraries) (with_Level "not-a-level" (with_Format "XML" log.NewOptions))
      = Done [e1; e2] (with_Level "not-a-level" (with_Format "XML" log.NewOptions))
    ∧ e1 = fmt.Errorf_q (H := sampleLibraries) "unrecognized level: " "not-a-level"
    ∧ e2 = fmt.Errorf_q (H := sampleLibraries) "not a valid log format: " "XML"
    ∧ is_level_error e1 = true ∧ is_format_error e1 = false
    ∧ is_format_error e2 = true ∧ is_level_error e2 = false.
Proof.
  apply (@Validate_both_invalid sampleLibraries
           (with_Level "not-a-level" (with_Format "XML" log.NewOptions))
           sampleLibraries_lower); reflexivity.
Defined.

(** C7: [Validate] always returns, with at most two errors; each is
    either a level error, and then [Level] did not parse and is no
    severity token, or a format error, and then [Format] is neither
    "console" nor "json" up to case. *)
Theorem Validate_error_kinds `{Libraries} (o : log.Options) :
  ∃ errs, log.Validate o = Done errs o
          ∧ (length errs <= 2)%nat
          ∧ Forall (λ e,
               (is_level_error e = true ∧ is_format_error e = false
                ∧ level_parses (log.Level o) = false
                ∧ is_severity_token (log.Level o) = false)
               ∨ (is_format_error e = true ∧ is_level_error e = false
                  ∧ valid_format (log.Format o) = false)) errs.
Proof.
  eexists. split; [apply Validate_run|].
  assert (Hfmt : negb (String.eqb (strings.ToLower (log.Format o)) "console")
                 && negb (String.eqb (strings.ToLower (log.Format o)) "json") = true
                 → valid_format (log.Format o) = false).
  { intros Hc. destruct (valid_format (log.Format o)) eqn:Hv; [|reflexivity].
    rewrite (valid_format_passes _ Hv) in Hc. discriminate. }
  destruct (fst (parse_level (log.Level o))) as [e|] eqn:He.
  - assert (Hl : level_parses (log.Level o) = false)
      by (apply level_parses_spec; eauto).
    apply parse_level_error in He. subst e.
    destruct (negb _ && negb _) eqn:Hc; simpl; (split; [lia|]).
    + constructor; [|constructor; [|constructor]].
      * left. repeat split; try reflexivity; [exact Hl|].
        now apply not_parsed_not_token.
      * right. repeat split; try reflexivity. now apply Hfmt.
    + constructor; [|constructor].
      left. repeat split; try reflexivity; [exact Hl|].
      now apply not_parsed_not_token.
  - destruct (negb _ && negb _) eqn:Hc; simpl; (split; [lia|]).
    + constructor; [|constructor].
      right. repeat split; try reflexivity. now apply Hfmt.
    + constructor.
Qed.

(** ** JSON rendering *)

Lemma encode_elems_succ `{Libraries} (i : nat) (l : list string) :
  json.encode_elems (Datatypes.S i) l
  = match l with
    | [] => ""
    | _ => "," +:+ join "," (List.map json.appendString l)
    end.
Proof.
  revert i. induction l as [|x r IH]; intros i; [reflexivity|].
  cbn [json.encode_elems]. rewrite IH.
  change (0 <? Datatypes.S i)%nat with true. cbv iota.
  destruct r as [|y r]; [|reflexivity].
  cbn [List.map join]. now rewrite app_empty_r.
Qed.

Lemma encode_elems_join `{Libraries} (l : list string) :
  json.encode_elems 0 l = join "," (List.map json.appendString l).
Proof.
  destruct l as [|x r]; [reflexivity|].
  cbn [json.encode_elems]. rewrite encode_elems_succ.
  change (0 <? 0)%nat with false. cbv iota.
  destruct r as [|y r]; [|reflexivity].
  cbn [List.map join]. now rewrite app_empty_r.
Qed.

Lemma encode_paths `{Libraries} (l : slice string) :
  json.encode_value (json.VStrings l) = json_paths l.
Proof.
  destruct l as [|elems]; [reflexivity|].
  unfold json.encode_value, json_paths, json_array. now rewrite encode_elems_join.
Qed.

Lemma encode_fields_join `{Libraries} (next : string) (fields : list (string * json.value)) :
  json.encode_fields next fields
  = match fields with
    | [] => ("", next)
    | _ => (next +:+ join "," (List.map (λ kv, json_member (fst kv, json.encode_value (snd kv)))
                                        fields), ",")
    end.
Proof.
  revert next. induction fields as [|[k v] rest IH]; intros next; [reflexivity|].
  cbn [json.encode_fields]. rewrite IH.
  assert (Hm : ∀ tail, String dquote k +:+ String dquote ":" +:+ json.encode_value v +:+ tail
                       = json_member (k, json.encode_value v) +:+ tail).
  { intros tail. unfold json_member, quoted. cbn [fst snd]. simpl.
    f_equal. rewrite !app_assoc_str. reflexivity. }
  destruct rest as [|kv rest].
  - cbn [List.map join]. rewrite Hm. now rewrite app_empty_r.
  - rewrite Hm. reflexivity.
Qed.

(** [json.Marshal] of a struct with at least one field. *)
Lemma Marshal_object `{Libraries} (kv : string * json.value) (fields : list (string * json.value)) :
  json.Marshal (kv :: fields)
  = (json_object (List.map (λ kv, (fst kv, json.encode_value (snd kv))) (kv :: fields)), None).
Proof.
  unfold json.Marshal. rewrite encode_fields_join.
  change (String.eqb "," "{") with false. cbv iota.
  unfold json_object. rewrite List.map_map.
  rewrite app_assoc_str. reflexivity.
Qed.

(** ** Flag registration *)

Lemma bind_run {S A B} (m : M S A) (k : A → M S B) (s : S) :
  (m ≫= k) s = match m s with
               | Done a s' => k a s'
               | Panicked msg => Panicked msg
               end.
Proof. reflexivity. Qed.

Section Registration.

Context {S : Type}.
Implicit Types (o : S) (f : pflag.FlagSet S).







Lemma with_flag_lookup_ne f (flag : pflag.Flag S) (n : string) :
  pflag.Name flag ≠ n →
  pflag.formal (with_flag f flag) !! n = pflag.formal f !! n.
Proof. intros Hne. unfold with_flag. cbn [pflag.formal]. now rewrite lookup_insert_ne. Qed.

Lemma with_flag_lookup_eq f (flag : pflag.Flag S) :
  pflag.formal (with_flag f flag) !! pflag.Name flag = Some flag.
Proof. unfold with_flag. cbn [pflag.formal]. now rewrite lookup_insert_eq. Qed.

End Registration.





(** Binding the same record twice to one flag set panics at the first
    name, as pflag does for a flag that is defined again. *)
Example AddFlags_twice_panics :
  (log.AddFlags ;; log.AddFlags) (log.NewOptions, NewFlagSet "app")
  = Panicked "app flag redefined: log.level".
Proof. reflexivity. Qed.

(** The lowering of [UnmarshalText] is Unicode-aware: with U+0130 (bytes
    C4 B0) for its first letter, "INFO" still parses, as the info
    level. *)
Example parse_level_dotted_I :
  parse_level (H := sampleLibraries) (String (byte_of 0xC4) (String (byte_of 0xB0) "NFO"))
  = (None, zapcore.InfoLevel).
Proof. reflexivity. Qed.

(** ** [AddFlags] on any flag set *)

Section BindingRuns.

Context {S : Type}.
Implicit Types (o : S) (f : pflag.FlagSet S) (b : binding S).

(** One registration, whatever the flag set holds. *)
Lemma VarP_run (value : pflag.Value S) (n usage : string) o f :
  pflag.VarP value n usage (o, f)
  = match pflag.formal f !! pflag.normalizeFlagName f n with
    | Some _ => Panicked (pflag.name f +:+ " flag redefined: " +:+ n)
    | None =>
      Done tt (o, with_flag f {| pflag.Name := pflag.normalizeFlagName f n;
                                 pflag.Usage := usage;
                                 pflag.Value_ := value;
                                 pflag.DefValue := pflag.Value_held value o |})
    end.
Proof.
  unfold pflag.VarP, pflag.AddFlag, mbind, M_bind, gets, modify, panic.
  cbn [fst snd pflag.Name].
  destruct (pflag.formal f !! pflag.normalizeFlagName f n); reflexivity.
Qed.

Lemma run_binding_eq b o f :
  binding_ptr_ok b →
  run_binding b (o, f)
  = match pflag.formal f !! binding_key f b with
    | Some _ => Panicked (pflag.name f +:+ " flag redefined: " +:+ binding_name b)
    | None => Done tt (o, with_flag f (binding_flag (pflag.normalizeFlagName f) o b))
    end.
Proof.
  intros Hp. unfold binding_key, binding_flag.
  destruct b as [p n u|p n u|p n u|p n u]; cbn [binding_ptr_ok] in Hp;
    cbn [run_binding binding_name binding_usage binding_value];
    unfold pflag.StringVar, pflag.BoolVar, pflag.IntVar, pflag.StringSliceVar,
      pflag.newStringValue, pflag.newBoolValue, pflag.newIntValue,
      pflag.newStringSliceValue;
    unfold mbind, M_bind, gets, modify, mret, M_ret; cbn [fst snd];
    rewrite (Hp o), VarP_run; reflexivity.
Qed.

Lemma with_flag_name f (flag : pflag.Flag S) :
  pflag.name (with_flag f flag) = pflag.name f.
Proof. reflexivity. Qed.

Lemma with_flag_lookup_None f (flag : pflag.Flag S) (k : string) :
  pflag.formal (with_flag f flag) !! k = None
  ↔ pflag.formal f !! k = None ∧ pflag.Name flag ≠ k.
Proof. unfold with_flag. cbn [pflag.formal]. apply lookup_insert_None. Qed.

Lemma binding_key_with_flag f (flag : pflag.Flag S) b :
  binding_key (with_flag f flag) b = binding_key f b.
Proof. reflexivity. Qed.

(** The flags of a list of bindings, added in order. *)
Lemma fold_with_flag_ordered (l : list (pflag.Flag S)) f :
  pflag.orderedFormal (fold_left with_flag l f) = pflag.orderedFormal f ++ l.
Proof.
  revert f. induction l as [|x l IH]; intros f; cbn [fold_left].
  - now rewrite app_nil_r.
  - rewrite IH. cbn [with_flag pflag.orderedFormal]. now rewrite <- app_assoc.
Qed.

Lemma fold_with_flag_name (l : list (pflag.Flag S)) f :
  pflag.name (fold_left with_flag l f) = pflag.name f
  ∧ pflag.normalizeNameFunc (fold_left with_flag l f) = pflag.normalizeNameFunc f.
Proof.
  revert f. induction l as [|x l IH]; intros f; cbn [fold_left]; [easy|].
  destruct (IH (with_flag f x)) as [-> ->]. easy.
Qed.

Lemma fold_with_flag_other (l : list (pflag.Flag S)) f (k : string) :
  ¬ In k (List.map pflag.Name l) →
  pflag.formal (fold_left with_flag l f) !! k = pflag.formal f !! k.
Proof.
  revert f. induction l as [|x l IH]; intros f Hk; cbn [fold_left]; [reflexivity|].
  cbn [List.map In] in Hk. rewrite IH by tauto.
  apply with_flag_lookup_ne. tauto.
Qed.

Lemma fold_with_flag_lookup (l : list (pflag.Flag S)) f (x : pflag.Flag S) :
  NoDup (List.map pflag.Name l) → In x l →
  pflag.formal (fold_left with_flag l f) !! pflag.Name x = Some x.
Proof.
  revert f. induction l as [|y l IH]; intros f Hnd Hx; [destruct Hx|].
  cbn [List.map] in Hnd. apply NoDup_cons in Hnd as [Hy Hnd].
  rewrite list_elem_of_In in Hy.
  cbn [fold_left]. destruct Hx as [->|Hx].
  - rewrite fold_with_flag_other by exact Hy. apply with_flag_lookup_eq.
  - now apply IH.
Qed.

Lemma fold_with_flag_taken (l : list (pflag.Flag S)) f (k : string) :
  is_Some (pflag.formal f !! k) →
  is_Some (pflag.formal (fold_left with_flag l f) !! k).
Proof.
  revert f. induction l as [|y l IH]; intros f Hk; [exact Hk|].
  cbn [fold_left]. apply IH. unfold with_flag. cbn [pflag.formal].
  destruct (decide (pflag.Name y = k)) as [->|Hne].
  - rewrite lookup_insert_eq. eauto.
  - now rewrite lookup_insert_ne.
Qed.

(** A list of bindings either registers all its flags, and then their
    keys were distinct and free, or panics at one of its names, and
    then they were not. *)
Lemma run_bindings_cases (bs : list (binding S)) o f :
  Forall binding_ptr_ok bs →
  (run_bindings bs (o, f)
   = Done tt (o, fold_left with_flag
                   (List.map (binding_flag (pflag.normalizeFlagName f) o) bs) f)
   ∧ NoDup (List.map (binding_key f) bs)
   ∧ Forall (λ b, pflag.formal f !! binding_key f b = None) bs)
  ∨ ((∃ b, In b bs
           ∧ run_bindings bs (o, f)
             = Panicked (pflag.name f +:+ " flag redefined: " +:+ binding_name b))
     ∧ ¬ (NoDup (List.map (binding_key f) bs)
          ∧ Forall (λ b, pflag.formal f !! binding_key f b = None) bs)).
Proof.
  intros Hok. revert f. induction Hok as [|b bs Hb Hbs IH]; intros f.
  - left. split; [reflexivity|]. split; constructor.
  - cbn [run_bindings]. rewrite bind_run, (run_binding_eq b o f Hb).
    destruct (pflag.formal f !! binding_key f b) as [old|] eqn:Hk.
    + right. split.
      * exists b. split; [now left|reflexivity].
      * intros [_ Hfree]. apply Forall_inv in Hfree. congruence.
    + set (f' := with_flag f (binding_flag (pflag.normalizeFlagName f) o b)).
      destruct (IH f') as [(Hrun & Hnd & Hfree)|[(b' & Hin & Hrun) Hnot]].
      * left. split; [exact Hrun|].
        assert (Hfree' : Forall (λ b0, pflag.formal f !! binding_key f b0 = None
                                       ∧ binding_key f b ≠ binding_key f b0) bs).
        { eapply Forall_impl; [exact Hfree|]. intros b0 H0.
          apply with_flag_lookup_None in H0. exact H0. }
        split.
        -- cbn [List.map]. apply NoDup_cons. split; [|exact Hnd].
           rewrite list_elem_of_In.
           intros Hin. apply in_map_iff in Hin as (b0 & Heq & Hin).
           rewrite Forall_forall in Hfree'. destruct (Hfree' b0) as [_ Hne].
           ++ now apply list_elem_of_In.
           ++ congruence.
        -- constructor; [exact Hk|].
           eapply Forall_impl; [exact Hfree'|]. intros b0 [H0 _]. exact H0.
      * right. split.
        -- exists b'. split; [now right|exact Hrun].
        -- intros [Hnd Hfree]. apply Hnot.
           cbn [List.map] in Hnd. apply NoDup_cons in Hnd as [Hhead Hnd].
           rewrite list_elem_of_In in Hhead.
           split; [exact Hnd|].
           apply Forall_inv_tail in Hfree.
           rewrite Forall_forall in Hfree |- *. intros b0 Hb0.
           apply with_flag_lookup_None. split; [now apply Hfree|].
           intros Heq. apply Hhead. apply in_map_iff. exists b0.
           split; [symmetry; exact Heq|now apply list_elem_of_In].
Qed.

End BindingRuns.

Lemma bind_assoc_run {S A B C} (m : M S A) (k : A → M S B) (h : B → M S C) (s : S) :
  ((m ≫= k) ≫= h) s = (m ≫= λ a, k a ≫= h) s.
Proof. unfold mbind, M_bind. destruct (m s); reflexivity. Qed.

Lemma bind_ext {S A B} (m : M S A) (k k' : A → M S B) (s : S) :
  (∀ a s', k a s' = k' a s') → (m ≫= k) s = (m ≫= k') s.
Proof. intros Hk. unfold mbind, M_bind. destruct (m s); [apply Hk|reflexivity]. Qed.

Lemma bind_ret_tt {S} (m : M S unit) (s : S) : (m ≫= λ _, mret tt) s = m s.
Proof. unfold mbind, M_bind, mret, M_ret. destruct (m s) as [[] ?|?]; reflexivity. Qed.

Lemma log_bindings_ok : Forall binding_ptr_ok log_bindings.
Proof.
  unfold log_bindings.
  repeat (apply Forall_cons; split; [intros []; reflexivity|]).
  apply Forall_nil. exact I.
Qed.

(** [AddFlags] is its eleven statements, run in order. *)
Lemma AddFlags_bindings (st : pflag.St log.Options) :
  log.AddFlags st = run_bindings log_bindings st.
Proof.
  unfold log.AddFlags, log_bindings, log.field.
  cbn [run_bindings run_binding].
  repeat (rewrite bind_assoc_run; apply bind_ext; intros ? ?;
          apply bind_ext; intros [] ?).
  symmetry. apply bind_ret_tt.
Qed.

Lemma log_binding_keys (f : pflag.FlagSet log.Options) :
  List.map (binding_key f) log_bindings = List.map (pflag.normalizeFlagName f) flag_names.
Proof. reflexivity. Qed.

Lemma names_free_bindings (f : pflag.FlagSet log.Options) :
  names_free f
  ↔ NoDup (List.map (binding_key f) log_bindings)
    ∧ Forall (λ b, pflag.formal f !! binding_key f b = None) log_bindings.
Proof.
  unfold names_free. rewrite log_binding_keys. split; intros [Hnd Hfree]; (split; [exact Hnd|]).
  - rewrite Forall_forall. intros b Hb. apply Hfree.
    apply list_elem_of_In in Hb.
    change flag_names with (List.map binding_name log_bindings).
    now apply in_map.
  - intros n Hn. rewrite Forall_forall in Hfree.
    change flag_names with (List.map binding_name log_bindings) in Hn.
    apply in_map_iff in Hn as (b & <- & Hb). apply Hfree. now apply list_elem_of_In.
Qed.

(** The flags [AddFlags] registers for the record [o] in the flag set
    [f], and the flag set afterwards. *)
Lemma AddFlags_cases (o : log.Options) (f : pflag.FlagSet log.Options) :
  (names_free f
   ∧ log.AddFlags (o, f)
     = Done tt (o, fold_left with_flag
                     (List.map (binding_flag (pflag.normalizeFlagName f) o) log_bindings) f))
  ∨ (¬ names_free f
     ∧ ∃ n, In n flag_names
            ∧ log.AddFlags (o, f)
              = Panicked (pflag.name f +:+ " flag redefined: " +:+ n)).
Proof.
  rewrite AddFlags_bindings, names_free_bindings.
  destruct (run_bindings_cases log_bindings o f log_bindings_ok)
    as [(Hrun & Hfree)|[(b & Hb & Hrun) Hnot]].
  - left. split; [exact Hfree|exact Hrun].
  - right. split; [exact Hnot|]. exists (binding_name b). split; [|exact Hrun].
    change flag_names with (List.map binding_name log_bindings). now apply in_map.
Qed.

(** X1: [AddFlags] returns exactly when the keys of its eleven names in
    the flag set are distinct and none of them is defined there;
    otherwise it panics. *)
Theorem AddFlags_returns_iff (o : log.Options) (f : pflag.FlagSet log.Options) :
  (∃ st, log.AddFlags (o, f) = Done tt st) ↔ names_free f.
Proof.
  destruct (AddFlags_cases o f) as [[Hfree Hrun]|[Hnot (n & _ & Hrun)]]; split.
  - intros _. exact Hfree.
  - intros _. eauto.
  - intros [st Hst]. congruence.
  - intros Hfree. contradiction.
Qed.

Lemma NewFlagSet_free (name : string) : names_free (NewFlagSet name).
Proof.
  split; [|intros n _; reflexivity].
  apply (bool_decide_unpack _). vm_compute. exact I.
Qed.

Lemma AddFlags_returns_iff_witness :
  ∃ st, log.AddFlags (log.NewOptions, NewFlagSet "app") = Done tt st.
Proof.
  apply (proj2 (AddFlags_returns_iff log.NewOptions (NewFlagSet "app"))).
  apply NewFlagSet_free.
Defined.

(** X2: when [AddFlags] panics, the message is the name of the flag
    set, the words " flag redefined: " and one of the eleven flag names
    as written in the source, before normalization. *)
Theorem AddFlags_panic_message (o : log.Options) (f : pflag.FlagSet log.Options)
    (msg : string) :
  log.AddFlags (o, f) = Panicked msg →
  ¬ names_free f
  ∧ ∃ n, In n flag_names ∧ msg = pflag.name f +:+ " flag redefined: " +:+ n.
Proof.
  intros Hrun.
  destruct (AddFlags_cases o f) as [[_ Hdone]|[Hnot (n & Hn & Hpanic)]];
    [congruence|].
  split; [exact Hnot|]. exists n. split; [exact Hn|]. congruence.
Qed.

Lemma AddFlags_panic_message_witness :
  let f := with_flag (NewFlagSet "app")
             {| pflag.Name := "log.name"; pflag.Usage := "another name";
                pflag.Value_ := pflag.stringValue log.addr_Name;
                pflag.DefValue := pflag.HString "" |} in
  ¬ names_free f
  ∧ ∃ n, In n flag_names
         ∧ "app flag redefined: log.name" = pflag.name f +:+ " flag redefined: " +:+ n.
Proof.
  cbv zeta.
  apply (AddFlags_panic_message log.NewOptions _ "app flag redefined: log.name").
  reflexivity.
Defined.

Lemma binding_flag_names (norm : string → string) (o : log.Options) :
  List.map pflag.Name (List.map (binding_flag norm o) log_bindings)
  = List.map norm flag_names.
Proof. reflexivity. Qed.

(** X3: on a flag set where the keys of the eleven names are distinct
    and free, whatever its name normalization, [AddFlags] returns with
    the record as it was and with eleven flags added in the order of
    the source, each under the normalized form of its name, with the
    field's value as default and the field as the variable it sets;
    flags under other keys, the name of the flag set and its
    normalization stay. *)
Theorem AddFlags_normalized (o : log.Options) (f : pflag.FlagSet log.Options) :
  names_free f →
  ∃ f' new,
    log.AddFlags (o, f) = Done tt (o, f')
    ∧ pflag.orderedFormal f' = pflag.orderedFormal f ++ new
    ∧ List.map (λ x, (pflag.Name x, pflag.DefValue x, pflag.Value_ x)) new
      = [ (pflag.normalizeFlagName f "log.level", pflag.HString (log.Level o),
           pflag.stringValue log.addr_Level);
          (pflag.normalizeFlagName f "log.format", pflag.HString (log.Format o),
           pflag.stringValue log.addr_Format);
          (pflag.normalizeFlagName f "log.enable-color", pflag.HBool (log.EnableColor o),
           pflag.boolValue log.addr_EnableColor);
          (pflag.normalizeFlagName f "log.enable-caller", pflag.HBool (log.EnableCaller o),
           pflag.boolValue log.addr_EnableCaller);
          (pflag.normalizeFlagName f "log.output-paths",
           pflag.HStringSlice (log.OutputPaths o),
           pflag.stringSliceValue log.addr_OutputPaths false);
          (pflag.normalizeFlagName f "log.error-output-paths",
           pflag.HStringSlice (log.ErrorOutputPaths o),
           pflag.stringSliceValue log.addr_ErrorOutputPaths false);
          (pflag.normalizeFlagName f "log.development", pflag.HBool (log.Development o),
           pflag.boolValue log.addr_Development);
          (pflag.normalizeFlagName f "log.name", pflag.HString (log.Name o),
           pflag.stringValue log.addr_Name);
          (pflag.normalizeFlagName f "log.disable-stacktrace",
           pflag.HBool (log.DisableStacktrace o),
           pflag.boolValue log.addr_DisableStacktrace);
          (pflag.normalizeFlagName f "log.max-size-mb", pflag.HInt (log.MaxSizeInMB o),
           pflag.intValue log.addr_MaxSizeInMB);
          (pflag.normalizeFlagName f "log.max-age-days", pflag.HInt (log.MaxAgeInDays o),
           pflag.intValue log.addr_MaxAgeInDays) ]
    ∧ (∀ x, In x new → pflag.formal f' !! pflag.Name x = Some x)
    ∧ (∀ k, ¬ In k (List.map (pflag.normalizeFlagName f) flag_names) →
            pflag.formal f' !! k = pflag.formal f !! k)
    ∧ pflag.name f' = pflag.name f
    ∧ pflag.normalizeNameFunc f' = pflag.normalizeNameFunc f.
Proof.
  intros Hfree.
  destruct (AddFlags_cases o f) as [[_ Hrun]|[Hnot _]]; [|contradiction].
  do 2 eexists. split; [exact Hrun|].
  split; [apply fold_with_flag_ordered|].
  split; [reflexivity|].
  split; [|split].
  - intros x Hx. apply fold_with_flag_lookup; [|exact Hx].
    rewrite binding_flag_names. apply Hfree.
  - intros k Hk. apply fold_with_flag_other. now rewrite binding_flag_names.
  - apply fold_with_flag_name.
Qed.

Lemma dash_names_free : names_free (NewFlagSet_normalized "app" dash_names).
Proof.
  split; [|intros n _; reflexivity].
  apply (bool_decide_unpack _). vm_compute. exact I.
Qed.

Lemma AddFlags_normalized_witness :
  ∃ f' new,
    log.AddFlags (log.NewOptions, NewFlagSet_normalized "app" dash_names)
      = Done tt (log.NewOptions, f')
    ∧ pflag.orderedFormal f' = [] ++ new
    ∧ List.map (λ x, (pflag.Name x, pflag.DefValue x, pflag.Value_ x)) new
      = [ ("log-level", pflag.HString "info", pflag.stringValue log.addr_Level);
          ("log-format", pflag.HString "console", pflag.stringValue log.addr_Format);
          ("log-enable-color", pflag.HBool false, pflag.boolValue log.addr_EnableColor);
          ("log-enable-caller", pflag.HBool false, pflag.boolValue log.addr_EnableCaller);
          ("log-output-paths", pflag.HStringSlice (mk_slice ["stdout"]),
           pflag.stringSliceValue log.addr_OutputPaths false);
          ("log-error-output-paths", pflag.HStringSlice (mk_slice ["stderr"]),
           pflag.stringSliceValue log.addr_ErrorOutputPaths false);
          ("log-development", pflag.HBool false, pflag.boolValue log.addr_Development);
          ("log-name", pflag.HString "", pflag.stringValue log.addr_Name);
          ("log-disable-stacktrace", pflag.HBool false,
           pflag.boolValue log.addr_DisableStacktrace);
          ("log-max-size-mb", pflag.HInt 0, pflag.intValue log.addr_MaxSizeInMB);
          ("log-max-age-days", pflag.HInt 0, pflag.intValue log.addr_MaxAgeInDays) ]
    ∧ (∀ x, In x new → pflag.formal f' !! pflag.Name x = Some x)
    ∧ (∀ k, ¬ In k (List.map dash_names flag_names) →
            pflag.formal f' !! k = (∅ : gmap string (pflag.Flag log.Options)) !! k)
    ∧ pflag.name f' = "app"
    ∧ pflag.normalizeNameFunc f' = Some dash_names.
Proof.
  apply (AddFlags_normalized log.NewOptions (NewFlagSet_normalized "app" dash_names)).
  apply dash_names_free.
Defined.

(** X4: binding is not repeatable: after [AddFlags] has returned, a
    second [AddFlags] on the same record and flag set panics at the
    first name, "log.level". *)
Theorem AddFlags_again_panics (o o' : log.Options) (f f' : pflag.FlagSet log.Options) :
  log.AddFlags (o, f) = Done tt (o', f') →
  log.AddFlags (o', f')
  = Panicked (pflag.name f +:+ " flag redefined: " +:+ "log.level").
Proof.
  intros Hrun.
  destruct (AddFlags_cases o f) as [[Hfree Hdone]|[_ (n & _ & Hpanic)]];
    [|congruence].
  assert (Hf : f' = fold_left with_flag
                      (List.map (binding_flag (pflag.normalizeFlagName f) o) log_bindings) f)
    by congruence.
  assert (Ho : o' = o) by congruence.
  set (new := List.map (binding_flag (pflag.normalizeFlagName f) o) log_bindings) in *.
  assert (Hname : pflag.name f' = pflag.name f)
    by (rewrite Hf; apply fold_with_flag_name).
  assert (Hkey : ∀ n, pflag.normalizeFlagName f' n = pflag.normalizeFlagName f n).
  { intros n. unfold pflag.normalizeFlagName.
    rewrite Hf. now destruct (fold_with_flag_name new f) as [_ ->]. }
  assert (Htaken : is_Some (pflag.formal f' !! pflag.normalizeFlagName f "log.level")).
  { rewrite Hf. eexists.
    apply (fold_with_flag_lookup new f
             (binding_flag (pflag.normalizeFlagName f) o
                (bind_string log.addr_Level log.flagLevel
                   "Minimum log output `LEVEL`."))).
    - unfold new. rewrite binding_flag_names. apply Hfree.
    - left. reflexivity. }
  clear Hf Hrun Hdone new. subst o'.
  rewrite AddFlags_bindings. unfold log_bindings. cbn [run_bindings].
  rewrite bind_run, run_binding_eq by (intros []; reflexivity).
  unfold binding_key. cbn [binding_name]. rewrite Hkey.
  unfold log.flagLevel. destruct Htaken as [old ->]. now rewrite Hname.
Qed.

Lemma AddFlags_again_panics_witness :
  log.AddFlags
    (log.NewOptions,
     fold_left with_flag
       (List.map (binding_flag (pflag.normalizeFlagName (NewFlagSet "app")) log.NewOptions)
          log_bindings)
       (NewFlagSet "app"))
  = Panicked "app flag redefined: log.level".
Proof.
  apply (AddFlags_again_panics log.NewOptions log.NewOptions (NewFlagSet "app")).
  vm_compute. reflexivity.
Defined.

(** ** Which records [Validate] accepts *)

(** X5: [Validate] reads two fields only: records with the same
    [Level] and the same [Format] get the same errors, whatever their
    paths, names, switches and rotation thresholds. *)
Theorem Validate_reads_Level_Format `{Libraries} (o1 o2 : log.Options) :
  log.Level o1 = log.Level o2 →
  log.Format o1 = log.Format o2 →
  ∃ errs, log.Validate o1 = Done errs o1 ∧ log.Validate o2 = Done errs o2.
Proof.
  intros Hl Hf. eexists. rewrite !Validate_run, Hl, Hf. split; reflexivity.
Qed.

Lemma Validate_reads_Level_Format_witness :
  let o2 := {| log.Level := "info"; log.Format := "console";
               log.EnableColor := true; log.EnableCaller := true;
               log.OutputPaths := nil_slice; log.ErrorOutputPaths := mk_slice [];
               log.DisableStacktrace := true; log.Development := true;
               log.Name := "n"; log.MaxSizeInMB := -1; log.MaxAgeInDays := -7 |} in
  ∃ errs, log.Validate (H := sampleLibraries) log.NewOptions = Done errs log.NewOptions
          ∧ log.Validate (H := sampleLibraries) o2 = Done errs o2.
Proof.
  cbv zeta.
  apply (@Validate_reads_Level_Format sampleLibraries); reflexivity.
Defined.

(** X6: [Validate] returns no error exactly when [Level] parses and
    [Format] is "console" or "json" up to the case of its letters. *)
Theorem Validate_accepts_iff `{Libraries} (o : log.Options) :
  lower_stays_outside_ascii _ →
  (log.Validate o = Done [] o
   ↔ level_parses (log.Level o) = true ∧ valid_format (log.Format o) = true).
Proof.
  intros Hlow. rewrite Validate_run. unfold level_parses.
  destruct (fst (parse_level (log.Level o))) as [e|].
  - split; [discriminate|]. intros [? _]. discriminate.
  - destruct (valid_format (log.Format o)) eqn:Hv.
    + rewrite (valid_format_passes _ Hv). split; [now split|reflexivity].
    + rewrite (invalid_format_fails _ Hlow Hv). split; [discriminate|].
      intros [_ ?]. discriminate.
Qed.

Lemma Validate_accepts_iff_witness :
  log.Validate (H := sampleLibraries) (with_Level "ERROR" (with_Format "Json" log.NewOptions))
  = Done [] (with_Level "ERROR" (with_Format "Json" log.NewOptions)).
Proof.
  apply (proj2 (@Validate_accepts_iff sampleLibraries
                  (with_Level "ERROR" (with_Format "Json" log.NewOptions))
                  sampleLibraries_lower)).
  split; reflexivity.
Defined.

(** X7: for a [Level] of ASCII bytes, [Validate] reports a level error
    exactly when [Level] is neither empty, nor one of the seven severity
    tokens in some letter case, nor, where the release of zap built
    against knows it, "warning" in some letter case. *)
Theorem Validate_ascii_Level `{Libraries} (o : log.Options) :
  all_bytes ascii_byte (log.Level o) = true →
  ∃ errs, log.Validate o = Done errs o
          ∧ existsb is_level_error errs
            = negb (String.eqb (log.Level o) "" || is_severity_token (log.Level o)
                    || warning_alias (log.Level o)).
Proof.
  intros Hs. eexists. split; [apply Validate_run|].
  rewrite <- (ascii_level_parses _ Hs).
  destruct (level_parses (log.Level o)) eqn:Hp.
  - unfold level_parses in Hp.
    destruct (fst (parse_level (log.Level o))); [discriminate|].
    cbn [app]. destruct (negb _ && negb _); reflexivity.
  - apply level_parses_spec in Hp as [e He]. rewrite He.
    apply parse_level_error in He. subst e. reflexivity.
Qed.

Lemma Validate_ascii_Level_witness :
  ∃ errs, log.Validate (H := sampleLibraries) (with_Level "trace" log.NewOptions)
            = Done errs (with_Level "trace" log.NewOptions)
          ∧ existsb is_level_error errs
            = negb (String.eqb "trace" "" || is_severity_token "trace"
                    || warning_alias (H := sampleLibraries) "trace").
Proof.
  apply (@Validate_ascii_Level sampleLibraries (with_Level "trace" log.NewOptions)).
  reflexivity.
Defined.

(** ** The bytes of the error messages *)

Lemma all_bytes_app p (s t : string) :
  all_bytes p (s +:+ t) = all_bytes p s && all_bytes p t.
Proof.
  induction s as [|c s IH]; simpl; [reflexivity|].
  rewrite IH. apply andb_assoc.
Qed.

Lemma all_bytes_impl (p q : ascii → bool) (s : string) :
  (∀ c, p c = true → q c = true) → all_bytes p s = true → all_bytes q s = true.
Proof.
  intros Hpq. induction s as [|c s IH]; [reflexivity|].
  cbn [all_bytes]. intros H. apply andb_true_iff in H as [Hc Hs].
  now rewrite (Hpq c Hc), IH.
Qed.

Lemma all_bytes_concat p (l : list string) :
  Forall (λ s, all_bytes p s = true) l → all_bytes p (concat_strings l) = true.
Proof.
  induction 1 as [|s l Hs _ IH]; [reflexivity|].
  cbn [concat_strings]. now rewrite all_bytes_app, Hs, IH.
Qed.

Lemma high_visible (c : ascii) : high_byte c = true → visible_byte c = true.
Proof.
  unfold high_byte, ascii_byte, visible_byte. intros H. zbool.
  right. lia.
Qed.

Lemma lowerhex_range (n : Z) :
  0 <= n < 16 →
  (48 <= byte_val (strconv.lowerhex n) <= 57)
  ∨ (97 <= byte_val (strconv.lowerhex n) <= 102).
Proof.
  intros Hn. unfold strconv.lowerhex.
  destruct (Z.ltb_spec n 10); rewrite byte_val_of, Z.mod_small by lia; lia.
Qed.

Lemma land_15 (x : Z) : 0 <= Z.land x 0xF < 16.
Proof.
  change 0xF with (Z.ones 4). rewrite Z.land_ones by lia.
  apply Z.mod_pos_bound. lia.
Qed.

Lemma shiftr_4_byte (x : Z) : 0 <= x < 256 → 0 <= Z.shiftr x 4 < 16.
Proof.
  intros Hx. rewrite Z.shiftr_div_pow2 by lia.
  split; [apply Z.div_pos; lia|apply Z.div_lt_upper_bound; lia].
Qed.

Lemma lowerhex_visible (n : Z) :
  0 <= n < 16 → visible_byte (strconv.lowerhex n) = true.
Proof.
  intros Hn. unfold visible_byte. destruct (lowerhex_range n Hn); zbool; lia.
Qed.

Lemma hex_digits_visible (n : nat) (r : Z) :
  all_bytes visible_byte (strconv.hex_digits n r) = true.
Proof.
  induction n as [|n IH]; [reflexivity|].
  cbn [strconv.hex_digits all_bytes]. rewrite IH, lowerhex_visible by apply land_15.
  reflexivity.
Qed.

Lemma hex_pair_visible (x : Z) :
  0 <= x < 256 →
  all_bytes visible_byte
    (String (strconv.lowerhex (Z.shiftr x 4)) (str1 (strconv.lowerhex (Z.land x 0xF)))) = true.
Proof.
  intros Hx. cbn [all_bytes str1].
  rewrite !lowerhex_visible by (apply shiftr_4_byte || apply land_15; lia).
  reflexivity.
Qed.

(** Every byte of the encoding of a rune outside ASCII is outside
    ASCII. *)
Lemma EncodeRune_high (x : Z) :
  0x80 <= x <= utf8.MaxRune →
  all_bytes high_byte (utf8.EncodeRune x) = true.
Proof.
  unfold utf8.MaxRune. intros Hx. unfold utf8.EncodeRune. cbv zeta.
  rewrite (Z.mod_small x (2 ^ 32)) by lia.
  unfold utf8.rune1Max, utf8.rune2Max, utf8.rune3Max, utf8.MaxRune,
    utf8.surrogateMin, utf8.surrogateMax, utf8.t2, utf8.t3, utf8.t4, utf8.tx, utf8.maskx.
  assert (Hcont : ∀ y, high_byte (byte_of (Z.lor 0x80 (Z.land y 0x3F))) = true).
  { intros y. unfold high_byte. apply negb_true_iff.
    change 0x80 with (2 * 2 ^ 6). change 0x3F with (Z.ones 6).
    rewrite Z.land_ones by lia.
    pose proof (Z.mod_pos_bound y (2 ^ 6) ltac:(lia)).
    apply lor_lead; lia. }
  assert (Hlead : ∀ k n y, 0 <= n → 0 <= y < 2 ^ n → 128 <= k * 2 ^ n →
                           k * 2 ^ n + y < 256 →
                           high_byte (byte_of (Z.lor (k * 2 ^ n) y)) = true).
  { intros. unfold high_byte. apply negb_true_iff. now apply lor_lead. }
  destruct (Z.leb_spec x 0x7F); [lia|].
  destruct (Z.leb_spec x 0x7FF).
  - cbn [all_bytes str1]. rewrite Hcont, andb_true_r.
    rewrite Z.shiftr_div_pow2 by lia. change 0xC0 with (3 * 2 ^ 6).
    assert (0 <= x / 2 ^ 6 < 32).
    { split; [apply Z.div_pos; lia|apply Z.div_lt_upper_bound; lia]. }
    rewrite Hlead by lia. reflexivity.
  - destruct ((1114111 <? x) || ((55296 <=? x) && (x <=? 57343))) eqn:Hbad.
    + reflexivity.
    + cbn [orb]. destruct (Z.leb_spec x 0xFFFF).
      * cbn [all_bytes str1]. rewrite !Hcont, !andb_true_r.
        rewrite Z.shiftr_div_pow2 by lia. change 0xE0 with (7 * 2 ^ 5).
        assert (0 <= x / 2 ^ 12 < 16).
        { split; [apply Z.div_pos; lia|apply Z.div_lt_upper_bound; lia]. }
        rewrite Hlead by lia. reflexivity.
      * cbn [all_bytes str1]. rewrite !Hcont, !andb_true_r.
        rewrite Z.shiftr_div_pow2 by lia. change 0xF0 with (15 * 2 ^ 4).
        assert (0 <= x / 2 ^ 18 < 5).
        { split; [apply Z.div_pos; lia|apply Z.div_lt_upper_bound; lia]. }
        rewrite Hlead by lia. reflexivity.
Qed.

Lemma IsPrint_ascii `{Libraries} (r : Z) :
  r < 0x80 → strconv.IsPrint r = true → 32 <= r <= 126.
Proof.
  intros Hr. unfold strconv.IsPrint.
  destruct (Z.leb_spec r 255); [|lia].
  destruct (Z.leb_spec 32 r), (Z.leb_spec r 126); cbn [andb]; try lia;
    destruct (Z.leb_spec 161 r); cbn [andb]; try lia; discriminate.
Qed.

Lemma appendEscapedRune_visible `{Libraries} (r : Z) :
  0 <= r <= utf8.MaxRune →
  all_bytes visible_byte (strconv.appendEscapedRune r) = true.
Proof.
  intros Hr. unfold strconv.appendEscapedRune.
  change (byte_val dquote) with 34. change (byte_val backslash) with 92.
  destruct ((r =? 34) || (r =? 92)) eqn:Hq.
  { zbool. destruct Hq as [->| ->]; reflexivity. }
  destruct (strconv.IsPrint r) eqn:Hp.
  { destruct (Z.ltb_spec r 0x80).
    - apply IsPrint_ascii in Hp; [|lia].
      unfold utf8.EncodeRune, utf8.rune1Max. cbv zeta.
      rewrite Z.mod_small by lia.
      destruct (Z.leb_spec r 127); [|lia].
      cbn [all_bytes str1]. unfold visible_byte.
      rewrite byte_val_of, Z.mod_small by lia.
      rewrite andb_true_r. zbool. left. lia.
    - eapply all_bytes_impl; [apply high_visible|]. apply EncodeRune_high. lia. }
  repeat match goal with
         | |- context [if ?a =? ?b then _ else _] =>
           destruct (a =? b); [reflexivity|]
         end.
  destruct ((r <? 32) || (r =? 127)).
  { rewrite all_bytes_app. cbn [all_bytes andb].
    apply hex_pair_visible. apply Z.mod_pos_bound. lia. }
  destruct (negb (utf8.ValidRune r)).
  { rewrite all_bytes_app. now rewrite hex_digits_visible. }
  destruct (r <? 65536); rewrite all_bytes_app; now rewrite hex_digits_visible.
Qed.

Lemma quote_rune_visible `{Libraries} (r : Z) (src : string) :
  0 <= r <= utf8.MaxRune →
  all_bytes visible_byte (strconv.quote_rune (r, src)) = true.
Proof.
  intros Hr. unfold strconv.quote_rune.
  destruct ((String.length src =? 1)%nat && (r =? utf8.RuneError)).
  - destruct src as [|c rest]; [reflexivity|].
    rewrite all_bytes_app. cbn [all_bytes andb].
    apply hex_pair_visible, byte_val_range.
  - now apply appendEscapedRune_visible.
Qed.

(** The step of [range] at a byte outside ASCII, in full. *)
Lemma range_fuel_step (f : nat) (c : ascii) (t : string) :
  ∃ r w, utf8.range_fuel (Datatypes.S f) (String c t)
         = (r, take_bytes (Datatypes.S w) (String c t))
             :: utf8.range_fuel f (drop_bytes (Datatypes.S w) (String c t))
         ∧ 0 <= r <= utf8.MaxRune.
Proof.
  destruct (ascii_byte c) eqn:Hc.
  - exists (byte_val c), 0%nat. rewrite range_fuel_ascii by exact Hc.
    split; [reflexivity|]. pose proof (byte_val_range c). unfold utf8.MaxRune. lia.
  - cbn [utf8.range_fuel]. unfold ascii_byte in Hc. unfold utf8.RuneSelf. rewrite Hc.
    apply Z.ltb_ge in Hc.
    destruct (decode_nonascii c t Hc) as (r & w & -> & Hr).
    exists r, w. split; [reflexivity|lia].
Qed.

Lemma quote_body_visible `{Libraries} (fuel : nat) (s : string) :
  all_bytes visible_byte
    (concat_strings (List.map strconv.quote_rune (utf8.range_fuel fuel s))) = true.
Proof.
  revert s. induction fuel as [|fuel IH]; intros s; [reflexivity|].
  destruct s as [|c t]; [reflexivity|].
  destruct (range_fuel_step fuel c t) as (r & w & -> & Hr).
  cbn [List.map concat_strings].
  now rewrite all_bytes_app, quote_rune_visible, IH.
Qed.

Lemma Quote_visible `{Libraries} (s : string) :
  all_bytes visible_byte (strconv.Quote s) = true.
Proof.
  unfold strconv.Quote, utf8.range. cbn [all_bytes].
  now rewrite all_bytes_app, quote_body_visible.
Qed.

(** X8: no error message of [Validate] holds an ASCII control
    character, whatever bytes [Level] and [Format] hold: every byte of
    a message is printable ASCII or part of a multi-byte character. *)
Theorem Validate_messages_visible `{Libraries} (o : log.Options) :
  ∃ errs, log.Validate o = Done errs o
          ∧ Forall (λ e, all_bytes visible_byte (Error e) = true) errs.
Proof.
  eexists. split; [apply Validate_run|].
  assert (Hmsg : ∀ prefix s, all_bytes visible_byte prefix = true →
                             all_bytes visible_byte (Error (fmt.Errorf_q prefix s)) = true).
  { intros prefix s Hp. unfold fmt.Errorf_q, Error.
    now rewrite all_bytes_app, Hp, Quote_visible. }
  apply Forall_app. split.
  - destruct (fst (parse_level (log.Level o))) as [e|] eqn:He; [|constructor].
    apply parse_level_error in He. subst e.
    constructor; [|constructor]. now apply Hmsg.
  - destruct (negb _ && negb _); constructor; [|constructor]. now apply Hmsg.
Qed.

(** ** The bytes of the JSON text *)

Ltac src_done :=
  do 2 eexists; (split; [reflexivity|]); split;
  [ unfold utf8.mask2, utf8.mask3, utf8.mask4, utf8.maskx, utf8.MaxRune;
    change 0x1F with (Z.ones 5); change 0x0F with (Z.ones 4);
    change 0x07 with (Z.ones 3); change 0x3F with (Z.ones 6);
    rewrite !Z.land_ones by lia;
    rewrite !Z.shiftl_mul_pow2 by lia;
    first [ rewrite lor4 by (apply Z.mod_pos_bound; lia)
          | rewrite lor3 by (apply Z.mod_pos_bound; lia)
          | rewrite lor2 by (apply Z.mod_pos_bound; lia) ];
    eval_closed (2 ^ 3); eval_closed (2 ^ 4); eval_closed (2 ^ 5); eval_closed (2 ^ 6);
    Z.div_mod_to_equations; lia
  | cbn [take_bytes all_bytes]; unfold high_byte, ascii_byte;
    repeat (rewrite (proj2 (Z.ltb_ge _ _)) by lia); reflexivity ].

(** A rune decoded at a byte outside ASCII lies outside ASCII, and so
    do all the bytes it was decoded from. *)
Lemma decode_nonascii_src (c : ascii) (t : string) :
  0x80 <= byte_val c →
  ∃ r w, utf8.DecodeRuneInString (String c t) = (r, Datatypes.S w)
         ∧ 0x80 <= r <= utf8.MaxRune
         ∧ all_bytes high_byte (take_bytes (Datatypes.S w) (String c t)) = true.
Proof.
  intros Hc. pose proof (byte_val_range c) as Hr.
  unfold utf8.DecodeRuneInString. cbv zeta.
  generalize (Z.of_nat (String.length (String c t))). intros n.
  assert (Hbad : ∃ r w, (utf8.RuneError, 1%nat) = (r, Datatypes.S w)
                        ∧ 0x80 <= r <= utf8.MaxRune
                        ∧ all_bytes high_byte (take_bytes (Datatypes.S w) (String c t)) = true).
  { exists utf8.RuneError, 0%nat. split; [reflexivity|].
    split; [unfold utf8.RuneError, utf8.MaxRune; lia|].
    cbn [take_bytes all_bytes]. unfold high_byte, ascii_byte.
    rewrite (proj2 (Z.ltb_ge _ _)) by lia. reflexivity. }
  set (b0 := byte_val c) in *.
  unfold utf8.locb, utf8.hicb.
  destruct (first_cases b0 ltac:(lia)) as
    [Hf|[[Hf Hb]|[[Hf Hb]|[[Hf Hb]|[[Hf Hb]|[[Hf Hb]|[[Hf Hb]|[Hf Hb]]]]]]]];
    rewrite Hf.
  - eval_closed (utf8.as_ <=? utf8.xx). cbv iota.
    eval_closed (Z.odd utf8.xx). cbv iota.
    eval_closed (Z.lnot (-1)). rewrite Z.land_0_r.
    eval_closed (Z.land utf8.RuneError (-1)). rewrite Z.lor_0_l.
    exact Hbad.
  - decode_head utf8.s1. repeat decode_step Hbad. src_done.
  - decode_head utf8.s2. repeat decode_step Hbad. src_done.
  - decode_head utf8.s3. repeat decode_step Hbad. src_done.
  - decode_head utf8.s4. repeat decode_step Hbad. src_done.
  - decode_head utf8.s5. repeat decode_step Hbad. src_done.
  - decode_head utf8.s6. repeat decode_step Hbad. src_done.
  - decode_head utf8.s7. repeat decode_step Hbad. src_done.
Qed.

Lemma String_run `{Libraries} (o : log.Options) :
  log.String o = Done (json_object (options_members o)) o.
Proof.
  unfold log.String, mbind, M_bind, gets, mret, M_ret, id, log.json_fields.
  rewrite Marshal_object. cbn [List.map fst snd].
  rewrite !encode_paths. reflexivity.
Qed.

Lemma high_clean (c : ascii) : high_byte c = true → json_clean_byte c = true.
Proof.
  unfold high_byte, ascii_byte, json_clean_byte. intros H. zbool. lia.
Qed.

Lemma lowerhex_clean (n : Z) :
  0 <= n < 16 → json_clean_byte (strconv.lowerhex n) = true.
Proof.
  intros Hn. unfold json_clean_byte. destruct (lowerhex_range n Hn); zbool; lia.
Qed.

(** The step of [range] at any byte: an ASCII byte is its own rune;
    elsewhere the rune and the bytes it came from lie outside ASCII. *)
Lemma range_fuel_entry (f : nat) (c : ascii) (t : string) :
  ∃ r src rest,
    utf8.range_fuel (Datatypes.S f) (String c t) = (r, src) :: utf8.range_fuel f rest
    ∧ ((ascii_byte c = true ∧ r = byte_val c ∧ src = str1 c)
       ∨ (0x80 <= r <= utf8.MaxRune ∧ all_bytes high_byte src = true)).
Proof.
  destruct (ascii_byte c) eqn:Hc.
  - exists (byte_val c), (str1 c), t. rewrite range_fuel_ascii by exact Hc.
    split; [reflexivity|]. now left.
  - cbn [utf8.range_fuel]. unfold ascii_byte in Hc. unfold utf8.RuneSelf. rewrite Hc.
    apply Z.ltb_ge in Hc.
    destruct (decode_nonascii_src c t Hc) as (r & w & -> & Hr & Hsrc).
    do 3 eexists. split; [reflexivity|]. right. split; assumption.
Qed.

Lemma escape_byte_clean (b : Z) :
  0 <= b < 256 → all_bytes json_clean_byte (json.escape_byte b) = true.
Proof.
  intros Hb. unfold json.escape_byte.
  destruct ((b =? 92) || (b =? 34)) eqn:Hq.
  { zbool. destruct Hq as [->| ->]; reflexivity. }
  repeat match goal with
         | |- context [if ?a =? ?b then _ else _] =>
           destruct (a =? b); [reflexivity|]
         end.
  rewrite all_bytes_app. cbn [all_bytes str1 andb].
  rewrite !lowerhex_clean by (apply shiftr_4_byte || apply land_15; lia).
  reflexivity.
Qed.

Lemma encode_rune_clean `{Libraries} (r : Z) (src : string) (c : ascii) :
  (ascii_byte c = true ∧ r = byte_val c ∧ src = str1 c)
  ∨ (0x80 <= r <= utf8.MaxRune ∧ all_bytes high_byte src = true) →
  all_bytes json_clean_byte (json.encode_rune (r, src)) = true.
Proof.
  unfold json.encode_rune, utf8.RuneSelf.
  intros [(Hc & -> & ->)|(Hr & Hsrc)].
  - unfold ascii_byte in Hc. rewrite Hc.
    destruct (json.htmlSafeSet (byte_val c)) eqn:Hs.
    + cbn [all_bytes str1]. unfold json.htmlSafeSet in Hs. unfold json_clean_byte.
      rewrite andb_true_r. zbool. lia.
    + apply escape_byte_clean, byte_val_range.
  - destruct (Z.ltb_spec r 128); [lia|].
    destruct ((r =? utf8.RuneError) && (String.length src =? 1)%nat);
      [destruct jsonRawReplacement; reflexivity|].
    destruct ((r =? 8232) || (r =? 8233)).
    + rewrite all_bytes_app. cbn [all_bytes str1 andb].
      now rewrite lowerhex_clean by apply land_15.
    + eapply all_bytes_impl; [apply high_clean|exact Hsrc].
Qed.

Lemma encode_body_clean `{Libraries} (fuel : nat) (s : string) :
  all_bytes json_clean_byte
    (concat_strings (List.map json.encode_rune (utf8.range_fuel fuel s))) = true.
Proof.
  revert s. induction fuel as [|fuel IH]; intros s; [reflexivity|].
  destruct s as [|c t]; [reflexivity|].
  destruct (range_fuel_entry fuel c t) as (r & src & rest & -> & Hentry).
  cbn [List.map concat_strings].
  now rewrite all_bytes_app, (encode_rune_clean r src c Hentry), IH.
Qed.

Lemma appendString_clean `{Libraries} (s : string) :
  all_bytes json_clean_byte (json.appendString s) = true.
Proof.
  unfold json.appendString, utf8.range. cbn [all_bytes].
  now rewrite all_bytes_app, encode_body_clean.
Qed.

Lemma string_of_uint_clean (d : Decimal.uint) :
  all_bytes json_clean_byte (NilEmpty.string_of_uint d) = true.
Proof. induction d; cbn [NilEmpty.string_of_uint all_bytes]; try rewrite IHd; reflexivity. Qed.

Lemma Itoa_clean (i : Z) : all_bytes json_clean_byte (strconv.Itoa i) = true.
Proof.
  unfold strconv.Itoa, NilZero.string_of_int, NilZero.string_of_uint.
  destruct (Z.to_int i) as [d|d]; destruct d;
    try reflexivity; cbn [all_bytes]; rewrite ?string_of_uint_clean;
    try reflexivity; apply (string_of_uint_clean (_ d)).
Qed.

Lemma join_bytes p (sep : string) (parts : list string) :
  all_bytes p sep = true →
  Forall (λ s, all_bytes p s = true) parts →
  all_bytes p (join sep parts) = true.
Proof.
  intros Hsep. induction 1 as [|x l Hx Hl IH]; [reflexivity|].
  destruct l as [|y l]; [exact Hx|].
  change (join sep (x :: y :: l)) with (x +:+ sep +:+ join sep (y :: l)).
  now rewrite !all_bytes_app, Hx, Hsep, IH.
Qed.

Lemma json_paths_clean `{Libraries} (l : slice string) :
  all_bytes json_clean_byte (json_paths l) = true.
Proof.
  destruct l as [|elems]; [reflexivity|].
  unfold json_paths, json_array. cbn [all_bytes String.append].
  rewrite all_bytes_app, join_bytes; [reflexivity|reflexivity|].
  apply Forall_forall. intros s Hs. apply list_elem_of_In, in_map_iff in Hs as (x & <- & _).
  apply appendString_clean.
Qed.

Lemma FormatBool_clean (b : bool) :
  all_bytes json_clean_byte (strconv.FormatBool b) = true.
Proof. destruct b; reflexivity. Qed.

Lemma json_member_clean (k v : string) :
  all_bytes json_clean_byte k = true → all_bytes json_clean_byte v = true →
  all_bytes json_clean_byte (json_member (k, v)) = true.
Proof.
  intros Hk Hv. unfold json_member, quoted. cbn [fst snd].
  rewrite !all_bytes_app. cbn [all_bytes]. rewrite !all_bytes_app, Hk, Hv.
  reflexivity.
Qed.

(** X9: the text [String] returns never holds a byte below the space
    (so no line break or other control character) and never one of the
    characters [<], [>] and [&], whatever bytes the fields of the record
    hold. *)
Theorem String_bytes_clean `{Libraries} (o : log.Options) :
  ∃ text, log.String o = Done text o
          ∧ all_bytes json_clean_byte text = true.
Proof.
  eexists. split; [apply String_run|].
  unfold json_object. cbn [all_bytes String.append].
  rewrite all_bytes_app, join_bytes; [reflexivity|reflexivity|].
  unfold options_members. cbn [List.map].
  repeat (apply Forall_cons; split;
          [apply json_member_clean;
           [reflexivity
           |first [apply appendString_clean|apply FormatBool_clean
                  |apply json_paths_clean|apply Itoa_clean]]|]).
  apply Forall_nil. exact I.
Qed.

Lemma plain_byte_is_ascii (c : ascii) : json_plain_byte c = true → ascii_byte c = true.
Proof.
  unfold json_plain_byte, json.htmlSafeSet, ascii_byte. intros H. zbool. lia.
Qed.

Lemma encode_body_plain `{Libraries} (s : string) (fuel : nat) :
  json_plain s = true → (String.length s <= fuel)%nat →
  concat_strings (List.map json.encode_rune (utf8.range_fuel fuel s)) = s.
Proof.
  revert fuel. induction s as [|c t IH]; intros fuel Hp Hf.
  - destruct fuel; reflexivity.
  - destruct fuel as [|fuel]; [simpl in Hf; lia|].
    unfold json_plain in Hp. cbn [all_bytes] in Hp.
    apply andb_true_iff in Hp as [Hc Ht].
    rewrite range_fuel_ascii by now apply plain_byte_is_ascii.
    cbn [List.map concat_strings]. rewrite IH; [|exact Ht|simpl in Hf; lia].
    unfold json.encode_rune, utf8.RuneSelf.
    pose proof (plain_byte_is_ascii c Hc) as Ha. unfold ascii_byte in Ha. rewrite Ha.
    unfold json_plain_byte in Hc. rewrite Hc. reflexivity.
Qed.

(** A string of printable ASCII without the double quote, the
    backslash and the three HTML characters is written as it is,
    between double quotes. *)
Lemma appendString_plain `{Libraries} (s : string) :
  json_plain s = true → json.appendString s = quoted s.
Proof.
  intros Hp. unfold json.appendString, quoted, utf8.range.
  now rewrite encode_body_plain.
Qed.

Lemma json_paths_plain `{Libraries} (l : slice string) :
  json_plain_paths l = true → json_paths l = quoted_paths l.
Proof.
  destruct l as [|elems]; [reflexivity|].
  cbn [json_plain_paths json_paths quoted_paths]. intros Hp. f_equal.
  induction elems as [|x r IH]; [reflexivity|].
  cbn [forallb] in Hp. apply andb_true_iff in Hp as [Hx Hr].
  cbn [List.map]. now rewrite appendString_plain, IH.
Qed.

(** X10: when [Level], [Format], [Name] and the paths are printable
    ASCII without the double quote, the backslash and [<], [>], [&],
    [String] shows each of them as it is between double quotes, the
    booleans as [true] or [false] and the two thresholds in decimal. *)
Theorem String_plain_values `{Libraries} (o : log.Options) :
  json_plain (log.Level o) = true →
  json_plain (log.Format o) = true →
  json_plain (log.Name o) = true →
  json_plain_paths (log.OutputPaths o) = true →
  json_plain_paths (log.ErrorOutputPaths o) = true →
  log.String o
  = Done (json_object
            [ ("level", quoted (log.Level o));
              ("format", quoted (log.Format o));
              ("enable-color", if log.EnableColor o then "true" else "false");
              ("enable-caller", if log.EnableCaller o then "true" else "false");
              ("output-paths", quoted_paths (log.OutputPaths o));
              ("error-output-paths", quoted_paths (log.ErrorOutputPaths o));
              ("disable-stacktrace", if log.DisableStacktrace o then "true" else "false");
              ("development", if log.Development o then "true" else "false");
              ("name", quoted (log.Name o));
              ("max-size-in-mb", strconv.Itoa (log.MaxSizeInMB o));
              ("max-age-in-days", strconv.Itoa (log.MaxAgeInDays o)) ]) o.
Proof.
  intros Hl Hf Hn Hop Heop. rewrite String_run. unfold options_members.
  now rewrite !appendString_plain, !json_paths_plain by assumption.
Qed.

Lemma String_plain_values_witness :
  let o := {| log.Level := "debug"; log.Format := "json";
              log.EnableColor := true; log.EnableCaller := false;
              log.OutputPaths := mk_slice ["stdout"; "/var/log/app.log"];
              log.ErrorOutputPaths := nil_slice;
              log.DisableStacktrace := false; log.Development := true;
              log.Name := "api"; log.MaxSizeInMB := 100; log.MaxAgeInDays := -1 |} in
  log.String (H := sampleLibraries) o
  = Done (json_object
            [ ("level", quoted "debug"); ("format", quoted "json");
              ("enable-color", "true"); ("enable-caller", "false");
              ("output-paths",
               "[" +:+ quoted "stdout" +:+ "," +:+ quoted "/var/log/app.log" +:+ "]");
              ("error-output-paths", "null");
              ("disable-stacktrace", "false"); ("development", "true");
              ("name", quoted "api"); ("max-size-in-mb", "100");
              ("max-age-in-days", "-1") ]) o.
Proof.
  cbv zeta.
  apply (@String_plain_values sampleLibraries
           {| log.Level := "debug"; log.Format := "json";
              log.EnableColor := true; log.EnableCaller := false;
              log.OutputPaths := mk_slice ["stdout"; "/var/log/app.log"];
              log.ErrorOutputPaths := nil_slice;
              log.DisableStacktrace := false; log.Development := true;
              log.Name := "api"; log.MaxSizeInMB := 100; log.MaxAgeInDays := -1 |});
    reflexivity.
Defined.

(** ** Reading the JSON text back *)

Section Reading.
Context `{Libraries}.

Lemma read_more_app {A} (a b : string) (x : option (string * A)) :
  read_more a (read_more b x) = read_more (a +:+ b) x.
Proof. destruct x as [[v rest]|]; [|reflexivity]. simpl. now rewrite app_assoc_str. Qed.

Lemma replace_invalid_rune_ascii (c : ascii) :
  ascii_byte c = true → replace_invalid_rune (byte_val c, str1 c) = str1 c.
Proof.
  unfold ascii_byte, replace_invalid_rune, utf8.RuneError. intros Hc.
  destruct (Z.eqb_spec (byte_val c) 65533); [zbool; lia|reflexivity].
Qed.

(** An ASCII byte, plain or escaped, is read back as itself. *)
Lemma read_chars_ascii (c : ascii) (tail : string) :
  ascii_byte c = true →
  read_chars (json.encode_rune (byte_val c, str1 c) +:+ tail)
  = read_more (str1 c) (read_chars tail).
Proof.
  destruct c as [[] [] [] [] [] [] [] []]; intros Hc; try discriminate Hc; reflexivity.
Qed.

Lemma read_chars_high (src tail : string) :
  all_bytes high_byte src = true →
  read_chars (src +:+ tail) = read_more src (read_chars tail).
Proof.
  induction src as [|c t IH]; intros Hs.
  - cbn [String.append]. destruct (read_chars tail) as [[v rest]|]; reflexivity.
  - cbn [all_bytes] in Hs. apply andb_true_iff in Hs as [Hc Ht].
    unfold high_byte, ascii_byte in Hc. zbool.
    cbn [String.append read_chars].
    destruct (Z.eqb_spec (byte_val c) 34); [lia|].
    destruct (Z.ltb_spec (byte_val c) 32); [lia|].
    destruct (Z.eqb_spec (byte_val c) 92); [lia|].
    rewrite IH by exact Ht. now rewrite read_more_app.
Qed.

Ltac sep_arith :=
  unfold utf8.mask2, utf8.mask3, utf8.mask4, utf8.maskx;
  change 0x1F with (Z.ones 5); change 0x0F with (Z.ones 4);
  change 0x07 with (Z.ones 3); change 0x3F with (Z.ones 6);
  rewrite !Z.land_ones by lia;
  rewrite !Z.shiftl_mul_pow2 by lia;
  first [ rewrite lor4 by (apply Z.mod_pos_bound; lia)
        | rewrite lor3 by (apply Z.mod_pos_bound; lia)
        | rewrite lor2 by (apply Z.mod_pos_bound; lia) ];
  eval_closed (2 ^ 3); eval_closed (2 ^ 4); eval_closed (2 ^ 5); eval_closed (2 ^ 6).

Ltac sep_bytes v :=
  match goal with
  | Hw : _ = String ?c (String ?c0 (String ?c1 _)) |- _ =>
    let Hb := fresh "Hb" in
    assert (Hb : byte_val c = 226 ∧ byte_val c0 = 128 ∧ byte_val c1 = v)
      by (Z.div_mod_to_equations; lia);
    destruct Hb as (E0 & E1 & E2);
    rewrite Hw; cbn [take_bytes];
    rewrite <- (byte_of_val c), <- (byte_of_val c0), <- (byte_of_val c1), E0, E1, E2;
    reflexivity
  end.

Ltac sep_done :=
  let Heq := fresh "Heq" in
  let Hsep := fresh "Hsep" in
  sep_arith; intros Heq Hsep; injection Heq as Heq <-;
  first [ exfalso; destruct Hsep; Z.div_mod_to_equations; lia
        | destruct Hsep as [Hsep|Hsep]; rewrite Hsep in Heq |- *;
          [sep_bytes 168|sep_bytes 169] ].

(** The bytes a line or paragraph separator is decoded from are its
    UTF-8 encoding. *)
Lemma decode_line_sep (c : ascii) (t : string) (r : Z) (w : nat) :
  0x80 <= byte_val c →
  utf8.DecodeRuneInString (String c t) = (r, w) →
  r = 0x2028 ∨ r = 0x2029 →
  take_bytes w (String c t) = utf8.EncodeRune r.
Proof.
  intros Hc. pose proof (byte_val_range c) as Hr.
  assert (Hgen : ∀ whole, whole = String c t →
                 utf8.DecodeRuneInString (String c t) = (r, w) →
                 r = 0x2028 ∨ r = 0x2029 → take_bytes w whole = utf8.EncodeRune r);
    [|now apply Hgen].
  intros whole Hwhole.
  unfold utf8.DecodeRuneInString. cbv zeta.
  generalize (Z.of_nat (String.length (String c t))). intros n.
  assert (Hbad : (utf8.RuneError, 1%nat) = (r, w) → r = 8232 ∨ r = 8233 →
                 take_bytes w whole = utf8.EncodeRune r).
  { intros [= <- <-] [|]; discriminate. }
  unfold utf8.locb, utf8.hicb.
  destruct (first_cases (byte_val c) ltac:(lia)) as
    [Hf|[[Hf Hb]|[[Hf Hb]|[[Hf Hb]|[[Hf Hb]|[[Hf Hb]|[[Hf Hb]|[Hf Hb]]]]]]]];
    rewrite Hf.
  - eval_closed (utf8.as_ <=? utf8.xx). cbv iota.
    eval_closed (Z.odd utf8.xx). cbv iota.
    eval_closed (Z.lnot (-1)). rewrite Z.land_0_r.
    eval_closed (Z.land utf8.RuneError (-1)). rewrite Z.lor_0_l.
    exact Hbad.
  - decode_head utf8.s1. repeat decode_step Hbad. sep_done.
  - decode_head utf8.s2. repeat decode_step Hbad. sep_done.
  - decode_head utf8.s3. repeat decode_step Hbad. sep_done.
  - decode_head utf8.s4. repeat decode_step Hbad. sep_done.
  - decode_head utf8.s5. repeat decode_step Hbad. sep_done.
  - decode_head utf8.s6. repeat decode_step Hbad. sep_done.
  - decode_head utf8.s7. repeat decode_step Hbad. sep_done.
Qed.

Lemma range_fuel_read (f : nat) (c : ascii) (t : string) :
  ∃ r w,
    utf8.range_fuel (Datatypes.S f) (String c t)
    = (r, take_bytes (Datatypes.S w) (String c t))
        :: utf8.range_fuel f (drop_bytes (Datatypes.S w) (String c t))
    ∧ ((ascii_byte c = true ∧ r = byte_val c ∧ w = 0%nat)
       ∨ (0x80 <= r <= utf8.MaxRune
          ∧ all_bytes high_byte (take_bytes (Datatypes.S w) (String c t)) = true
          ∧ (r = 0x2028 ∨ r = 0x2029 →
             take_bytes (Datatypes.S w) (String c t) = utf8.EncodeRune r))).
Proof.
  destruct (ascii_byte c) eqn:Hc.
  - exists (byte_val c), 0%nat. rewrite range_fuel_ascii by exact Hc.
    split; [reflexivity|]. now left.
  - cbn [utf8.range_fuel]. unfold ascii_byte in Hc. unfold utf8.RuneSelf. rewrite Hc.
    apply Z.ltb_ge in Hc.
    destruct (decode_nonascii_src c t Hc) as (r & w & Hd & Hr & Hsrc).
    exists r, w. rewrite Hd. split; [reflexivity|]. right.
    split; [exact Hr|]. split; [exact Hsrc|].
    intros Hsep. now apply decode_line_sep.
Qed.

(** One rune as the encoder writes it is read back as the bytes it came
    from, or as U+FFFD where they were no valid encoding. *)
Lemma read_chars_rune (r : Z) (src : string) (c : ascii) (tail : string) :
  (ascii_byte c = true ∧ r = byte_val c ∧ src = str1 c)
  ∨ (0x80 <= r <= utf8.MaxRune ∧ all_bytes high_byte src = true
     ∧ (r = 0x2028 ∨ r = 0x2029 → src = utf8.EncodeRune r)) →
  read_chars (json.encode_rune (r, src) +:+ tail)
  = read_more (replace_invalid_rune (r, src)) (read_chars tail).
Proof.
  intros [(Hc & -> & ->)|(Hr & Hsrc & Hsep)].
  - rewrite replace_invalid_rune_ascii by exact Hc. now apply read_chars_ascii.
  - unfold json.encode_rune, replace_invalid_rune, utf8.RuneSelf.
    destruct (Z.ltb_spec r 128); [lia|].
    destruct ((r =? utf8.RuneError) && (String.length src =? 1)%nat).
    { destruct jsonRawReplacement; [|reflexivity].
      now apply read_chars_high. }
    destruct ((r =? 8232) || (r =? 8233)) eqn:Hs; [|now apply read_chars_high].
    rewrite Hsep by (zbool; lia).
    zbool. destruct Hs as [->| ->]; reflexivity.
Qed.

Lemma read_chars_body (fuel : nat) (s tail : string) :
  read_chars (concat_strings (List.map json.encode_rune (utf8.range_fuel fuel s)) +:+ tail)
  = read_more (concat_strings (List.map replace_invalid_rune (utf8.range_fuel fuel s)))
              (read_chars tail).
Proof.
  revert s. induction fuel as [|fuel IH]; intros s.
  - cbn [utf8.range_fuel List.map concat_strings String.append].
    destruct (read_chars tail) as [[v rest]|]; reflexivity.
  - destruct s as [|c t].
    { cbn [utf8.range_fuel List.map concat_strings String.append].
      destruct (read_chars tail) as [[v rest]|]; reflexivity. }
    destruct (range_fuel_read fuel c t) as (r & w & -> & Hentry).
    cbn [List.map concat_strings]. rewrite app_assoc_str.
    rewrite (read_chars_rune r _ c).
    + now rewrite IH, read_more_app.
    + destruct Hentry as [(Hc & Hr & ->)|Hhigh]; [left|now right].
      repeat split; assumption.
Qed.

(** A string as the encoder writes it is read back as the string, with
    U+FFFD for each byte that is no part of a valid encoding; what
    follows the closing quote is left over. *)
Lemma read_string_appendString (s rest : string) :
  read_string (json.appendString s +:+ rest) = Some (replace_invalid s, rest).
Proof.
  unfold json.appendString, read_string, utf8.range, replace_invalid.
  cbn [String.append]. change (byte_val dquote =? 34) with true. cbv iota.
  rewrite app_assoc_str, read_chars_body.
  cbn [str1 String.append read_chars]. change (byte_val dquote =? 34) with true. cbv iota.
  cbn [read_more]. now rewrite app_empty_r.
Qed.

Lemma take_drop_bytes (n : nat) (s : string) : take_bytes n s +:+ drop_bytes n s = s.
Proof.
  revert s. induction n as [|n IH]; intros s; [reflexivity|].
  destruct s as [|c t]; [reflexivity|]. cbn [take_bytes drop_bytes String.append].
  now rewrite IH.
Qed.

Lemma drop_bytes_length (n : nat) (s : string) :
  (String.length (drop_bytes n s) <= String.length s)%nat.
Proof.
  revert s. induction n as [|n IH]; intros s; [reflexivity|].
  destruct s as [|c t]; [reflexivity|]. cbn [drop_bytes String.length].
  specialize (IH t). lia.
Qed.

Lemma replace_invalid_fuel (fuel : nat) (s : string) :
  (String.length s <= fuel)%nat →
  forallb (λ cs, negb ((fst cs =? utf8.RuneError) && (String.length (snd cs) =? 1)%nat))
          (utf8.range_fuel fuel s) = true →
  concat_strings (List.map replace_invalid_rune (utf8.range_fuel fuel s)) = s.
Proof.
  revert s. induction fuel as [|fuel IH]; intros s Hlen.
  - destruct s; [reflexivity|]. simpl in Hlen. lia.
  - destruct s as [|c t]; [reflexivity|].
    destruct (range_fuel_read fuel c t) as (r & w & -> & _).
    cbn [forallb List.map concat_strings fst snd]. intros Hv.
    apply andb_true_iff in Hv as [Hr Hv].
    unfold replace_invalid_rune at 1. apply negb_true_iff in Hr. rewrite Hr.
    rewrite IH; [apply take_drop_bytes| |exact Hv].
    cbn [drop_bytes]. pose proof (drop_bytes_length w t). simpl in Hlen. lia.
Qed.

(** Valid UTF-8 is read back as it is. *)
Lemma replace_invalid_valid (s : string) : valid_utf8 s = true → replace_invalid s = s.
Proof. apply replace_invalid_fuel. reflexivity. Qed.

Lemma ascii_valid_fuel (fuel : nat) (s : string) :
  all_bytes ascii_byte s = true →
  forallb (λ cs, negb ((fst cs =? utf8.RuneError) && (String.length (snd cs) =? 1)%nat))
          (utf8.range_fuel fuel s) = true.
Proof.
  revert s. induction fuel as [|fuel IH]; intros s Hs; [reflexivity|].
  destruct s as [|c t]; [reflexivity|].
  cbn [all_bytes] in Hs. apply andb_true_iff in Hs as [Hc Ht].
  rewrite range_fuel_ascii by exact Hc. cbn [forallb fst snd].
  rewrite IH by exact Ht. unfold ascii_byte in Hc. unfold utf8.RuneError.
  destruct (Z.eqb_spec (byte_val c) 65533); [zbool; lia|reflexivity].
Qed.

Lemma ascii_valid_utf8 (s : string) : all_bytes ascii_byte s = true → valid_utf8 s = true.
Proof. apply ascii_valid_fuel. Qed.

Lemma read_string_quoted (k rest : string) :
  json_plain k = true → read_string (quoted k +:+ rest) = Some (k, rest).
Proof.
  intros Hk. rewrite <- (appendString_plain k Hk), read_string_appendString.
  rewrite replace_invalid_valid; [reflexivity|].
  apply ascii_valid_utf8. eapply all_bytes_impl; [apply plain_byte_is_ascii|exact Hk].
Qed.

Lemma length_app_str (s t : string) :
  String.length (s +:+ t) = (String.length s + String.length t)%nat.
Proof. induction s as [|c s IH]; [reflexivity|]. cbn [String.append String.length]. now rewrite IH. Qed.

Lemma read_elems_join (l : list string) (fuel : nat) (tail : string) :
  l ≠ [] →
  (String.length (join "," (List.map json.appendString l) +:+ "]" +:+ tail) <= fuel)%nat →
  read_elems fuel (join "," (List.map json.appendString l) +:+ "]" +:+ tail)
  = Some (List.map replace_invalid l, tail).
Proof.
  revert fuel. induction l as [|x l IH]; intros fuel Hne Hlen; [contradiction|].
  destruct fuel as [|fuel].
  { exfalso. destruct l; cbn [List.map join] in Hlen;
      unfold json.appendString in Hlen; cbn [String.append String.length] in Hlen; lia. }
  destruct l as [|y l].
  - cbn [List.map join read_elems]. rewrite read_string_appendString.
    cbn [String.append]. reflexivity.
  - change (join "," (List.map json.appendString (x :: y :: l)))
      with (json.appendString x +:+ "," +:+ join "," (List.map json.appendString (y :: l)))
      in Hlen |- *.
    rewrite !app_assoc_str in Hlen |- *.
    cbn [read_elems]. rewrite read_string_appendString.
    cbn [String.append]. change (byte_val "," =? 44) with true. cbv iota.
    rewrite IH; [reflexivity|discriminate|].
    rewrite (length_app_str (json.appendString x)), (length_app_str ",") in Hlen.
    change (String.length ",") with 1%nat in Hlen. lia.
Qed.

Lemma span_app (p : ascii → bool) (tok rest : string) :
  all_bytes p tok = true →
  match rest with String c _ => p c = false | EmptyString => True end →
  span p (tok +:+ rest) = (tok, rest).
Proof.
  intros Htok Hrest. induction tok as [|c tok IH].
  - cbn [String.append]. destruct rest as [|c t]; [reflexivity|].
    cbn [span]. now rewrite Hrest.
  - cbn [all_bytes] in Htok. apply andb_true_iff in Htok as [Hc Htok].
    cbn [String.append span]. now rewrite Hc, IH.
Qed.

Lemma string_of_uint_digits (d : Decimal.uint) :
  all_bytes number_byte (NilEmpty.string_of_uint d) = true.
Proof. induction d; cbn [NilEmpty.string_of_uint all_bytes]; try rewrite IHd; reflexivity. Qed.

Lemma Itoa_digits (i : Z) : all_bytes number_byte (strconv.Itoa i) = true.
Proof.
  unfold strconv.Itoa, NilZero.string_of_int, NilZero.string_of_uint.
  destruct (Z.to_int i) as [d|d]; destruct d;
    try reflexivity; cbn [all_bytes]; rewrite ?string_of_uint_digits;
    try reflexivity; apply (string_of_uint_digits (_ d)).
Qed.

Lemma to_int_normal (i : Z) : Decimal.norm (Z.to_int i) = Z.to_int i.
Proof. rewrite <- DecimalZ.to_of. now rewrite DecimalZ.of_to. Qed.

Lemma to_int_nonnil (i : Z) :
  Z.to_int i ≠ Decimal.Pos Decimal.Nil ∧ Z.to_int i ≠ Decimal.Neg Decimal.Nil.
Proof.
  destruct i as [|p|p]; cbn [Z.to_int]; (split; [|try discriminate]); try discriminate.
  - intros [= E]. now apply DecimalPos.Unsigned.to_uint_nonnil in E.
  - intros [= E]. now apply DecimalPos.Unsigned.to_uint_nonnil in E.
Qed.

(** An integer as [strconv.Itoa] writes it is read back as the integer. *)
Lemma read_number_Itoa (i : Z) (rest : string) :
  match rest with String c _ => number_byte c = false | EmptyString => True end →
  read_number (strconv.Itoa i +:+ rest) = Some (i, rest).
Proof.
  intros Hrest. unfold read_number.
  rewrite span_app; [|apply Itoa_digits|exact Hrest].
  unfold strconv.Itoa. destruct (to_int_nonnil i) as [Hp Hn].
  rewrite NilZero.isi by assumption.
  now rewrite to_int_normal, String.eqb_refl, DecimalZ.of_to.
Qed.

Lemma Itoa_head (i : Z) :
  ∃ c t, strconv.Itoa i = String c t ∧ number_byte c = true.
Proof.
  pose proof (Itoa_digits i) as Hd. destruct (to_int_nonnil i) as [Hp Hn].
  pose proof (NilZero.isi _ Hp Hn) as Hr. fold (strconv.Itoa i) in Hr.
  destruct (strconv.Itoa i) as [|c t]; [discriminate|].
  cbn [all_bytes] in Hd. apply andb_true_iff in Hd as [Hc _]. eauto.
Qed.

Lemma member_end_number (s : string) :
  member_end s = true →
  match s with String c _ => number_byte c = false | EmptyString => True end.
Proof.
  destruct s as [|c t]; [trivial|]. unfold member_end, number_byte.
  intros Hc. apply orb_true_iff in Hc.
  destruct Hc as [Hc|Hc]; apply Z.eqb_eq in Hc; rewrite Hc; reflexivity.
Qed.

(** The text of a field value is read back as the value. *)
Lemma read_value_encode (v : json.value) (tail : string) :
  member_end tail = true →
  read_value (json.encode_value v +:+ tail) = Some (json_read_of v, tail).
Proof.
  intros Htail. destruct v as [s|b|i|[|l]].
  - pose proof (read_string_appendString s tail) as Hs.
    unfold json.encode_value, json.appendString in *.
    cbn [String.append read_string read_value] in *.
    change (byte_val dquote =? 34) with true in *. cbv iota in *.
    now rewrite Hs.
  - destruct b; reflexivity.
  - cbn [json.encode_value json_read_of].
    pose proof (read_number_Itoa i tail (member_end_number _ Htail)) as Hn.
    destruct (Itoa_head i) as (c & t & E & Hc). rewrite E in *.
    cbn [String.append read_value] in *. unfold number_byte in Hc. zbool.
    repeat match goal with
           | |- context [byte_val c =? ?k] => destruct (Z.eqb_spec (byte_val c) k); [lia|]
           end.
    now rewrite Hn.
  - reflexivity.
  - cbn [json.encode_value json_read_of]. rewrite encode_elems_join.
    destruct l as [|x l]; [reflexivity|].
    rewrite !app_assoc_str.
    set (body := join "," (List.map json.appendString (x :: l)) +:+ "]" +:+ tail).
    change ("[" +:+ body) with (String "[" body). cbn [read_value].
    change (byte_val "[" =? 34) with false. change (byte_val "[" =? 91) with true. cbv iota.
    replace (after "]" body) with (@None string) by (destruct l; reflexivity).
    unfold body. rewrite read_elems_join; [reflexivity|discriminate|reflexivity].
Qed.

Lemma read_members_join (fields : list (string * json.value)) (fuel : nat) (tail : string) :
  fields ≠ [] →
  Forall (λ kv, json_plain (fst kv) = true) fields →
  (String.length (join "," (List.map (λ kv, json_member (fst kv, json.encode_value (snd kv)))
                                     fields) +:+ "}" +:+ tail) <= fuel)%nat →
  read_members fuel
    (join "," (List.map (λ kv, json_member (fst kv, json.encode_value (snd kv))) fields)
     +:+ "}" +:+ tail)
  = Some (List.map (λ kv, (fst kv, json_read_of (snd kv))) fields, tail).
Proof.
  revert fuel. induction fields as [|[k v] fields IH]; intros fuel Hne Hk Hlen; [contradiction|].
  apply Forall_cons in Hk as [Hk Hks]. cbn [fst] in Hk.
  destruct fuel as [|fuel].
  { exfalso. destruct fields; cbn [List.map join fst snd] in Hlen;
      unfold json_member, quoted in Hlen; cbn [fst String.append String.length] in Hlen; lia. }
  destruct fields as [|kv fields].
  - cbn [List.map join fst snd read_members]. unfold json_member. cbn [fst snd].
    rewrite !app_assoc_str. rewrite read_string_quoted by exact Hk.
    cbn [String.append]. change (byte_val ":" =? 58) with true. cbv iota.
    rewrite read_value_encode by reflexivity. reflexivity.
  - set (f := λ kv : string * json.value, json_member (fst kv, json.encode_value (snd kv))) in *.
    change (join "," (List.map f ((k, v) :: kv :: fields)))
      with (f (k, v) +:+ "," +:+ join "," (List.map f (kv :: fields))) in Hlen |- *.
    unfold f at 1 in Hlen. unfold f at 1. unfold json_member in Hlen |- *.
    cbn [fst snd] in Hlen |- *.
    rewrite !app_assoc_str in Hlen |- *.
    cbn [read_members]. rewrite read_string_quoted by exact Hk.
    cbn [String.append]. change (byte_val ":" =? 58) with true. cbv iota.
    rewrite read_value_encode by reflexivity.
    change (byte_val "," =? 44) with true. cbv iota.
    rewrite IH; [reflexivity|discriminate|exact Hks|].
    rewrite (length_app_str (quoted k)), (length_app_str ":"),
      (length_app_str (json.encode_value v)), (length_app_str ",") in Hlen.
    change (String.length ",") with 1%nat in Hlen. lia.
Qed.

(** The text of a struct with at least one field, under plain keys, is
    read back as the object of its fields in their order. *)
Lemma read_object_Marshal (kv : string * json.value) (fields : list (string * json.value)) :
  Forall (λ kv, json_plain (fst kv) = true) (kv :: fields) →
  read_object (fst (json.Marshal (kv :: fields)))
  = Some (List.map (λ kv, (fst kv, json_read_of (snd kv))) (kv :: fields)).
Proof.
  intros Hk. rewrite Marshal_object. cbn [fst]. unfold json_object.
  rewrite List.map_map. cbv beta.
  set (body := join "," (List.map (λ x, json_member (fst x, json.encode_value (snd x)))
                                  (kv :: fields)) +:+ "}").
  change ("{" +:+ body) with (String "{" body). cbn [read_object].
  change (byte_val "{" =? 123) with true. cbv iota.
  replace (after "}" body) with (@None string)
    by (destruct kv; destruct fields; reflexivity).
  pose proof (read_members_join (kv :: fields) (String.length body) ""
                ltac:(discriminate) Hk (Nat.le_refl _)) as Hm.
  now rewrite (Hm : read_members (String.length body) body = _).
Qed.
End Reading.

(** C8: [String] returns a text that a JSON reader takes for one
    object with one member per field, under the kebab-case keys of the
    [json] tags and in the order of the struct: [Level], [Format] and
    [Name] as strings, the four switches as booleans, the two
    thresholds as integers, and each path list as the array of its
    elements in their order (null for a nil slice).  A string is read
    back as it is when it is valid UTF-8, as all ASCII text is;
    otherwise with U+FFFD for each offending byte.  For the defaults the
    text has the member "format" with the string "console" and the
    member "output-paths" with the array of the one string "stdout". *)
Theorem String_json_object `{Libraries} (o : log.Options) :
  (∃ text, log.String o = Done text o
           ∧ read_object text
             = Some [ ("level", JString (replace_invalid (log.Level o)));
                      ("format", JString (replace_invalid (log.Format o)));
                      ("enable-color", JBool (log.EnableColor o));
                      ("enable-caller", JBool (log.EnableCaller o));
                      ("output-paths", paths_value (log.OutputPaths o));
                      ("error-output-paths", paths_value (log.ErrorOutputPaths o));
                      ("disable-stacktrace", JBool (log.DisableStacktrace o));
                      ("development", JBool (log.Development o));
                      ("name", JString (replace_invalid (log.Name o)));
                      ("max-size-in-mb", JNumber (log.MaxSizeInMB o));
                      ("max-age-in-days", JNumber (log.MaxAgeInDays o)) ])
  ∧ (∀ s, valid_utf8 s = true → replace_invalid s = s)
  ∧ (∀ s, all_bytes ascii_byte s = true → valid_utf8 s = true)
  ∧ ∃ text, log.String log.NewOptions = Done text log.NewOptions
            ∧ text = json_object
                       [ ("level", quoted "info"); ("format", quoted "console");
                         ("enable-color", "false"); ("enable-caller", "false");
                         ("output-paths", "[" +:+ quoted "stdout" +:+ "]");
                         ("error-output-paths", "[" +:+ quoted "stderr" +:+ "]");
                         ("disable-stacktrace", "false"); ("development", "false");
                         ("name", quoted ""); ("max-size-in-mb", "0");
                         ("max-age-in-days", "0") ]
            ∧ Contains text (quoted "format" +:+ ":" +:+ quoted "console") = true
            ∧ Contains text (quoted "output-paths" +:+ ":[" +:+ quoted "stdout" +:+ "]") = true.
Proof.
  split; [|split; [|split]].
  - exists (fst (json.Marshal (log.json_fields o))). split.
    + unfold log.String, mbind, M_bind, gets, mret, M_ret, id.
      destruct (json.Marshal (log.json_fields o)); reflexivity.
    + unfold log.json_fields. rewrite read_object_Marshal; [reflexivity|].
      repeat (constructor; [reflexivity|]). constructor.
  - apply replace_invalid_valid.
  - apply ascii_valid_utf8.
  - eexists. split; [reflexivity|]. split; [reflexivity|]. split; reflexivity.
Qed.

Lemma String_json_object_witness :
  (∃ text, log.String (H := sampleLibraries) sample_record = Done text sample_record
           ∧ read_object text
             = Some [ ("level", JString (String "a" (String dquote "b")));
                      ("format", JString "<json>");
                      ("enable-color", JBool true);
                      ("enable-caller", JBool false);
                      ("output-paths",
                       JStrings ["stdout"; String (byte_of 0xC3) (String (byte_of 0xA9) "")]);
                      ("error-output-paths", JNull);
                      ("disable-stacktrace", JBool false);
                      ("development", JBool true);
                      ("name", JString (utf8.EncodeRune utf8.RuneError
                                        +:+ String (byte_of 10) "x"));
                      ("max-size-in-mb", JNumber 100);
                      ("max-age-in-days", JNumber (-1)) ])
  ∧ replace_invalid (String (byte_of 0xC3) (String (byte_of 0xA9) ""))
    = String (byte_of 0xC3) (String (byte_of 0xA9) "")
  ∧ valid_utf8 "stdout" = true.
Proof.
  split; [|split].
  - exact (proj1 (@String_json_object sampleLibraries sample_record)).
  - apply (proj1 (proj2 (@String_json_object sampleLibraries sample_record))). reflexivity.
  - apply (proj1 (proj2 (proj2 (@String_json_object sampleLibraries sample_record)))).
    reflexivity.
Defined.
